(** * wsi/filter.py: image filters over NumPy arrays

    A shallow embedding of the filter functions of [wsi/filter.py].

    - [np] models the part of NumPy the filters use: an array is a shape
      and a typed flat buffer (row-major), with the element types the
      filters produce ([bool], [uint8], [int64], [float64]); [float64]
      is IEEE binary64 (Rocq's primitive floats), [uint8] and [int64]
      wrap around.
    - The filters run in a small monad: a log of the events they emit
      ([np_info] prints one line per call, [show] displays an image)
      together with either a raised exception or a value.
    - scikit-image, PIL and [wsi.slide] are not part of the file.  The
      filters take them through the interfaces [SkImage] and [Host]; the
      module [Sk] gives reference models, written from the library's
      documentation, of the routines some properties depend on. *)

From Stdlib Require Import ZArith List String Bool Lia Floats.
From stdpp Require Import base tactics option list gmap sets.
Import ListNotations.

#[local] Set Warnings "-inexact-float".

Open Scope string_scope.
Open Scope list_scope.
Open Scope Z_scope.

(** ** NumPy arrays *)

Module np.

Inductive dtype := bool_ | uint8 | int64 | float64.

(** One element read out of an array, or a Python number. *)
Inductive scalar :=
| SBool (b : bool)
| SInt (z : Z)
| SFloat (f : float).

Inductive buffer :=
| BoolBuf (l : list bool)
| UInt8Buf (l : list Z)
| Int64Buf (l : list Z)
| Float64Buf (l : list float).

Record ndarray := NdArray { shape : list nat; data : buffer }.

Definition dtype_of (b : buffer) : dtype :=
  match b with
  | BoolBuf _ => bool_
  | UInt8Buf _ => uint8
  | Int64Buf _ => int64
  | Float64Buf _ => float64
  end.

Definition values (b : buffer) : list scalar :=
  match b with
  | BoolBuf l => map SBool l
  | UInt8Buf l => map SInt l
  | Int64Buf l => map SInt l
  | Float64Buf l => map SFloat l
  end.

Definition size_of (a : ndarray) : nat := length (values (data a)).

(** Element [k] of the flattened array. *)
Definition flat (a : ndarray) (k : nat) : option scalar := values (data a) !! k.

(** *** Conversions between element types *)

Definition wrap_uint8 (z : Z) : Z := z mod 256.
Definition wrap_int64 (z : Z) : Z := (z + 2 ^ 63) mod 2 ^ 64 - 2 ^ 63.

(** The binary64 nearest to an integer. *)
Definition Z2F (z : Z) : float := SF2Prim (binary_normalize prec emax z 0 false).

(** C's conversion of a double to an integer: the fraction is dropped
    (rounding toward zero).  C leaves NaN and the infinities undefined;
    they give 0 here. *)
Definition F2Z (f : float) : Z :=
  match Prim2SF f with
  | S754_finite s m e =>
      let mag := Z.shiftl (Z.pos m) e in
      if s then - mag else mag
  | _ => 0
  end.

Definition b2z (b : bool) : Z := if b then 1 else 0.
Definition b2f (b : bool) : float := if b then 1%float else 0%float.

Definition to_Z (v : scalar) : Z :=
  match v with
  | SBool b => b2z b
  | SInt z => z
  | SFloat f => F2Z f
  end.

Definition to_float (v : scalar) : float :=
  match v with
  | SBool b => b2f b
  | SInt z => Z2F z
  | SFloat f => f
  end.

(** Python truth of a number: everything but zero, NaN included. *)
Definition truthy (v : scalar) : bool :=
  match v with
  | SBool b => b
  | SInt z => negb (z =? 0)
  | SFloat f => negb (PrimFloat.eqb f 0)
  end.

Definition is_float (v : scalar) : bool :=
  match v with SFloat _ => true | _ => false end.

(** [a > b] and [a <= b] on two numbers: in binary64 as soon as one
    side is a float, on the integers otherwise. *)
Definition gt (a b : scalar) : bool :=
  if is_float a || is_float b
  then PrimFloat.ltb (to_float b) (to_float a)
  else to_Z b <? to_Z a.

Definition le (a b : scalar) : bool :=
  if is_float a || is_float b
  then PrimFloat.leb (to_float a) (to_float b)
  else to_Z a <=? to_Z b.

(** [a.astype(float)] and [a.astype("uint8")]. *)
Definition astype_float (a : ndarray) : ndarray :=
  NdArray (shape a) (Float64Buf (map to_float (values (data a)))).

Definition astype_uint8 (a : ndarray) : ndarray :=
  NdArray (shape a) (UInt8Buf (map (fun v => wrap_uint8 (to_Z v)) (values (data a)))).

(** *** Arithmetic with a Python number

    A Python [float] makes the result [float64].  A Python [int] that
    fits the element type keeps [uint8] and [int64] (the result wraps
    around), turns [bool] into [int64] and is converted for
    [float64]. *)

(** [c - a] for a Python float [c]. *)
Definition float_minus (c : float) (a : ndarray) : ndarray :=
  NdArray (shape a) (Float64Buf (map (fun v => (c - to_float v)%float) (values (data a)))).

(** [c - a] for a Python int [c]. *)
Definition int_minus (c : Z) (a : ndarray) : ndarray :=
  NdArray (shape a)
    match data a with
    | BoolBuf l => Int64Buf (map (fun b => wrap_int64 (c - b2z b)) l)
    | UInt8Buf l => UInt8Buf (map (fun x => wrap_uint8 (c - x)) l)
    | Int64Buf l => Int64Buf (map (fun x => wrap_int64 (c - x)) l)
    | Float64Buf l => Float64Buf (map (fun x => (Z2F c - x)%float) l)
    end.

(** [c * a] (and [a * c]) for a Python int [c]. *)
Definition int_times (c : Z) (a : ndarray) : ndarray :=
  NdArray (shape a)
    match data a with
    | BoolBuf l => Int64Buf (map (fun b => wrap_int64 (c * b2z b)) l)
    | UInt8Buf l => UInt8Buf (map (fun x => wrap_uint8 (c * x)) l)
    | Int64Buf l => Int64Buf (map (fun x => wrap_int64 (c * x)) l)
    | Float64Buf l => Float64Buf (map (fun x => (Z2F c * x)%float) l)
    end.

(** [a / c] for a Python int [c]: true division, always [float64]. *)
Definition div_int (a : ndarray) (c : Z) : ndarray :=
  NdArray (shape a) (Float64Buf (map (fun v => (to_float v / Z2F c)%float) (values (data a)))).

(** *** Comparisons: the result is a [bool] array *)

Definition zip_cmp (cmp : scalar -> scalar -> bool) (a b : ndarray) : list bool :=
  zip_with cmp (values (data a)) (values (data b)).

Definition same_shape (a b : ndarray) : bool :=
  bool_decide (shape a = shape b) && (size_of a =? size_of b)%nat.

(** The rows of length [c] of a flat buffer. *)
Fixpoint chunks {A} (c : nat) (l : list A) (fuel : nat) : list (list A) :=
  match fuel with
  | O => []
  | S fuel' =>
      match l with
      | [] => []
      | _ => take c l :: chunks c (drop c l) fuel'
      end
  end.

(** *** Broadcasting

    Two shapes are aligned at their last axis.  Two extents go
    together when they are equal or one of them is 1, and the result
    has the other one; an axis one shape lacks counts as 1. *)
Fixpoint broadcast_rev (ra rb : list nat) : option (list nat) :=
  match ra, rb with
  | [], _ => Some rb
  | _, [] => Some ra
  | da :: ra', db :: rb' =>
      match broadcast_rev ra' rb' with
      | None => None
      | Some r =>
          if (da =? db)%nat then Some (da :: r)
          else if (da =? 1)%nat then Some (db :: r)
          else if (db =? 1)%nat then Some (da :: r)
          else None
      end
  end.

Definition broadcast_shapes (sa sb : list nat) : option (list nat) :=
  reverse <$> broadcast_rev (reverse sa) (reverse sb).

(** The buffer of an array of shape [sa] stretched to a shape [sh]
    with as many axes: along an axis where the extents differ (that of
    [sa] is 1) the sub-array is repeated. *)
Fixpoint stretch {A} (sa sh : list nat) (l : list A) : list A :=
  match sa, sh with
  | da :: sa', d :: sh' =>
      if (da =? d)%nat
      then chunks (foldr Nat.mul 1%nat sa') l da ≫= stretch sa' sh'
      else mjoin (replicate d (stretch sa' sh' l))
  | _, _ => l
  end.

(** The elements of [np.broadcast_to(a, sh)], row-major. *)
Definition broadcast_to (sh : list nat) (a : ndarray) : list scalar :=
  stretch (replicate (length sh - length (shape a)) 1%nat ++ shape a) sh (values (data a)).

(** *** The product over the last axis with a vector of three weights *)

(** The product of two floats, exact: the mantissa and the exponent
    of the result are not rounded. *)
Definition SFmul_exact (x y : spec_float) : spec_float :=
  match x, y with
  | S754_nan, _ | _, S754_nan => S754_nan
  | S754_infinity _, S754_zero _ | S754_zero _, S754_infinity _ => S754_nan
  | S754_infinity sx, S754_infinity sy => S754_infinity (xorb sx sy)
  | S754_infinity sx, S754_finite sy _ _ => S754_infinity (xorb sx sy)
  | S754_finite sx _ _, S754_infinity sy => S754_infinity (xorb sx sy)
  | S754_zero sx, S754_zero sy => S754_zero (xorb sx sy)
  | S754_zero sx, S754_finite sy _ _ => S754_zero (xorb sx sy)
  | S754_finite sx _ _, S754_zero sy => S754_zero (xorb sx sy)
  | S754_finite sx mx ex, S754_finite sy my ey =>
      S754_finite (xorb sx sy) (mx * my) (ex + ey)
  end.

(** The fused multiply-add of IEEE 754: [x * y + z] rounded once, to
    the nearest binary64 (ties to even). *)
Definition SFfma (x y z : spec_float) : spec_float :=
  match SFmul_exact x y, z with
  | S754_finite s m e, S754_zero _ =>
      binary_normalize prec emax (cond_Zopp s (Z.pos m)) e s
  | p, _ => SFadd prec emax p z
  end.

Definition fma (x y z : float) : float :=
  SF2Prim (SFfma (Prim2SF x) (Prim2SF y) (Prim2SF z)).

(** One entry of the product.  [np.dot] hands the converted image and
    the weights to the matrix-vector kernel of BLAS, which accumulates
    the terms from the left with fused multiply-adds: the first product
    is rounded, and each further product is added to the sum with one
    rounding. *)
Definition dot3 (w : float * float * float) (px : list scalar) : float :=
  match w, px with
  | (w0, w1, w2), [r; g; b] =>
      fma (to_float b) w2 (fma (to_float g) w1 (to_float r * w0)%float)
  | _, _ => 0%float
  end.

End np.

Import np.

(** ** Exceptions, events and the monad of the filters *)

Inductive exn :=
| ValueError (msg : string)
| IndexError (msg : string)
| NameError (name : string)
| AssertionError
| OtherError (msg : string).

(** What a run leaves behind: the line [np_info] prints (the label, the
    element type and the shape; the elapsed time and the four
    statistics of the line are left out) and the images displayed. *)
Inductive event :=
| Printed (name : string) (dt : dtype) (sh : list nat)
| Shown (pixels : ndarray).

Definition M (A : Type) : Type := list event * (exn + A).

Definition ret {A} (x : A) : M A := ([], inr x).
Definition raise {A} (e : exn) : M A := ([], inl e).
Definition tell (ev : event) : M unit := ([ev], inr tt).

Definition bind {A B} (m : M A) (k : A -> M B) : M B :=
  match m with
  | (log, inl e) => (log, inl e)
  | (log, inr x) => let '(log', r) := k x in (log ++ log', r)
  end.

Definition lift {A} (r : exn + A) : M A :=
  match r with
  | inl e => raise e
  | inr x => ret x
  end.

Notation "x <- m ;; k" := (bind m (fun x => k))
  (at level 100, m at next level, right associativity).
Notation "m ;;; k" := (bind m (fun _ => k))
  (at level 100, right associativity).

(** [m] returns [x] (whatever it logs). *)
Definition returns {A} (m : M A) (x : A) : Prop := snd m = inr x.

(** [m] raises [e]. *)
Definition raises {A} (m : M A) (e : exn) : Prop := snd m = inl e.

(** ** Boolean arrays

    A comparison of arrays, [astype(bool)] and the library routines
    documented to return a binary image all give an array of element
    type [bool]; [mask] is the type of these arrays. *)

Record mask := Mask { mshape : list nat; bits : list bool }.

Definition of_mask (m : mask) : ndarray := NdArray (mshape m) (BoolBuf (bits m)).

(** [a.astype(bool)] *)
Definition to_mask (a : ndarray) : mask := Mask (shape a) (map truthy (values (data a))).

(** [a > c] for a number [c]. *)
Definition gt_number (a : ndarray) (c : scalar) : mask :=
  Mask (shape a) (map (fun v => gt v c) (values (data a))).

(** [a > b] and [a <= b] for two arrays.  Arrays of one shape are
    compared element by element; arrays of different shapes are first
    broadcast to a common shape, and raise when there is none. *)
Definition compare_arrays (cmp : scalar -> scalar -> bool) (a b : ndarray) : exn + mask :=
  if same_shape a b
  then inr (Mask (shape a) (zip_cmp cmp a b))
  else
    match broadcast_shapes (shape a) (shape b) with
    | Some sh => inr (Mask sh (zip_with cmp (broadcast_to sh a) (broadcast_to sh b)))
    | None => inl (ValueError "operands could not be broadcast together")
    end.

(** [np.ones((n, m))]: a [float64] array of ones. *)
Definition np_ones (n m : Z) : exn + ndarray :=
  if (n <? 0) || (m <? 0)
  then inl (ValueError "negative dimensions are not allowed")
  else inr (NdArray [Z.to_nat n; Z.to_nat m]
              (Float64Buf (repeat 1%float (Z.to_nat n * Z.to_nat m)))).

(** [np.dot(a[..., :3], w)]: the first three entries along the last axis
    times the three weights. *)
Definition dot_rgb (a : ndarray) (w : float * float * float) : exn + ndarray :=
  match last (shape a) with
  | None => inl (IndexError "too many indices for array")
  | Some c =>
      if (c <? 3)%nat
      then inl (ValueError "shapes not aligned")
      else inr (NdArray (removelast (shape a))
                  (Float64Buf (map (fun px => dot3 w (take 3 px))
                                 (chunks c (values (data a)) (size_of a)))))
  end.

(** ** The libraries the filters call *)

(** [skimage.morphology.disk(radius)]: the [uint8] array of side
    [2 * radius + 1] holding 1 within distance [radius] of its centre. *)
Definition disk (radius : Z) : ndarray :=
  let n := Z.to_nat (2 * radius + 1) in
  NdArray [n; n]
    (UInt8Buf
       (i ← seqZ (- radius) (Z.of_nat n);
        j ← seqZ (- radius) (Z.of_nat n);
        [b2z (i * i + j * j <=? radius * radius)])).

(** The routines of scikit-image.  Each may raise.  The routines
    documented to return a binary image return a [mask]. *)
Class SkImage := {
  (** [skimage.filters.apply_hysteresis_threshold(image, low, high)] *)
  apply_hysteresis_threshold : ndarray -> scalar -> scalar -> exn + mask;
  (** [skimage.filters.threshold_otsu(image)] *)
  threshold_otsu : ndarray -> exn + scalar;
  (** [skimage.filters.rank.otsu(image, selem)] *)
  rank_otsu : ndarray -> ndarray -> exn + ndarray;
  (** [skimage.filters.rank.entropy(image, selem)] *)
  rank_entropy : ndarray -> ndarray -> exn + ndarray;
  (** [skimage.feature.canny(image, sigma, low_threshold, high_threshold)] *)
  canny : ndarray -> scalar -> scalar -> scalar -> exn + mask;
  (** [skimage.morphology.remove_small_objects(ar, min_size)] on a
      boolean array *)
  remove_small_objects : mask -> Z -> exn + mask;
  (** [skimage.exposure.equalize_hist(image, nbins)] *)
  equalize_hist : ndarray -> Z -> exn + ndarray;
  (** [skimage.exposure.equalize_adapthist(image, nbins, clip_limit)] *)
  equalize_adapthist : ndarray -> Z -> scalar -> exn + ndarray;
  (** [skimage.filters.rank.autolevel(image, selem)] *)
  rank_autolevel : ndarray -> ndarray -> exn + ndarray;
  (** [skimage.filters.rank.subtract_mean(image, selem)] *)
  rank_subtract_mean : ndarray -> ndarray -> exn + ndarray;
  (** [skimage.filters.rank.modal(image, selem)] *)
  rank_modal : ndarray -> ndarray -> exn + ndarray
}.

(** PIL and [wsi.slide]. *)
Class Host := {
  pil_image : Type;
  (** [slide.get_training_thumb_path(slide_number)] *)
  get_training_thumb_path : Z -> exn + string;
  (** [slide.open_image(filename)] *)
  open_image : string -> exn + pil_image;
  (** [np.asarray(pil_img)] *)
  asarray : pil_image -> ndarray;
  (** [PIL.Image.fromarray(np_img)] *)
  fromarray : ndarray -> exn + pil_image;
  (** [pil_img.show()] *)
  show : pil_image -> exn + unit
}.

(** ** The filters *)

(** [np_info]: [max()] of an array without elements raises; otherwise
    one line is printed. *)
Definition np_info (np_arr : ndarray) (name : string) : M unit :=
  if (size_of np_arr =? 0)%nat
  then raise (ValueError "zero-size array to reduction operation maximum which has no identity")
  else tell (Printed name (dtype_of (data np_arr)) (shape np_arr)).

Definition filter_rgb_to_grayscale (np_img : ndarray) (output_type : string) : M ndarray :=
  grayscale <- lift (dot_rgb np_img (0.2125, 0.7154, 0.0721)%float) ;;
  let grayscale :=
    if negb (String.eqb output_type "float") then astype_uint8 grayscale else grayscale in
  np_info grayscale "Gray" ;;;
  ret grayscale.

Definition filter_complement (np_img : ndarray) (output_type : string) : M ndarray :=
  let complement :=
    if String.eqb output_type "float"
    then float_minus 1 np_img
    else int_minus 255 np_img in
  np_info complement "Complement" ;;;
  ret complement.

Section Filters.

Context `{SkImage}.

Definition filter_hysteresis_threshold (np_img : ndarray) (low high : scalar)
    (output_type : string) : M ndarray :=
  hyst <- lift (apply_hysteresis_threshold np_img low high) ;;
  let hyst :=
    if String.eqb output_type "bool" then of_mask hyst
    else if String.eqb output_type "float" then astype_float (of_mask hyst)
    else astype_uint8 (int_times 255 (of_mask hyst)) in
  np_info hyst "Hysteresis Threshold" ;;;
  ret hyst.

Definition filter_otsu_threshold (np_img : ndarray) (output_type : string) : M ndarray :=
  otsu_thresh_value <- lift (threshold_otsu np_img) ;;
  let otsu := gt_number np_img otsu_thresh_value in
  let otsu :=
    if String.eqb output_type "bool" then of_mask otsu
    else if String.eqb output_type "float" then astype_float (of_mask otsu)
    else int_times 255 (astype_uint8 (of_mask otsu)) in
  np_info otsu "Otsu Threshold" ;;;
  ret otsu.

Definition filter_local_otsu_threshold (np_img : ndarray) (disk_size : Z)
    (output_type : string) : M ndarray :=
  local_otsu <- lift (rank_otsu np_img (disk disk_size)) ;;
  local_otsu <- lift (compare_arrays le np_img local_otsu) ;;
  let local_otsu :=
    if String.eqb output_type "bool" then of_mask local_otsu
    else if String.eqb output_type "float" then astype_float (of_mask local_otsu)
    else int_times 255 (astype_uint8 (of_mask local_otsu)) in
  np_info local_otsu "Otsu Local Threshold" ;;;
  ret local_otsu.

Definition filter_entropy (np_img : ndarray) (neighborhood : Z) (threshold : scalar)
    (output_type : string) : M ndarray :=
  selem <- lift (np_ones neighborhood neighborhood) ;;
  entr <- lift (rank_entropy np_img selem) ;;
  let entr := gt_number entr threshold in
  let entr :=
    if String.eqb output_type "bool" then of_mask entr
    else if String.eqb output_type "float" then astype_float (of_mask entr)
    else int_times 255 (astype_uint8 (of_mask entr)) in
  np_info entr "Entropy" ;;;
  ret entr.

Definition filter_canny (np_img : ndarray) (sigma low_threshold high_threshold : scalar)
    (output_type : string) : M ndarray :=
  can <- lift (canny np_img sigma low_threshold high_threshold) ;;
  let can :=
    if String.eqb output_type "bool" then of_mask can
    else if String.eqb output_type "float" then astype_float (of_mask can)
    else int_times 255 (astype_uint8 (of_mask can)) in
  np_info can "Canny Edges" ;;;
  ret can.

Definition filter_remove_small_objects (np_img : ndarray) (min_size : Z)
    (output_type : string) : M ndarray :=
  let rem_sm := to_mask np_img in
  rem_sm <- lift (remove_small_objects rem_sm min_size) ;;
  let rem_sm :=
    if String.eqb output_type "bool" then of_mask rem_sm
    else if String.eqb output_type "float" then astype_float (of_mask rem_sm)
    else int_times 255 (astype_uint8 (of_mask rem_sm)) in
  np_info rem_sm "Remove Small Objs" ;;;
  ret rem_sm.

Definition filter_histogram_equalization (np_img : ndarray) (nbins : Z)
    (output_type : string) : M ndarray :=
  let np_img :=
    match dtype_of (data np_img) with
    | uint8 => if negb (nbins =? 256) then div_int np_img 255 else np_img
    | _ => np_img
    end in
  hist_equ <- lift (equalize_hist np_img nbins) ;;
  let hist_equ :=
    if String.eqb output_type "float" then hist_equ
    else astype_uint8 (int_times 255 hist_equ) in
  np_info hist_equ "Hist Equalization" ;;;
  ret hist_equ.

Definition filter_adaptive_equalization (np_img : ndarray) (nbins : Z)
    (clip_limit : scalar) (output_type : string) : M ndarray :=
  adapt_equ <- lift (equalize_adapthist np_img nbins clip_limit) ;;
  let adapt_equ :=
    if String.eqb output_type "float" then adapt_equ
    else astype_uint8 (int_times 255 adapt_equ) in
  np_info adapt_equ "Adapt Equalization" ;;;
  ret adapt_equ.

Definition filter_autolevel (np_img : ndarray) (disk_size : Z)
    (output_type : string) : M ndarray :=
  autolevel <- lift (rank_autolevel np_img (disk disk_size)) ;;
  autolevel <- lift (compare_arrays gt np_img autolevel) ;;
  let autolevel :=
    if String.eqb output_type "bool" then of_mask autolevel
    else if String.eqb output_type "float" then astype_float (of_mask autolevel)
    else int_times 255 (astype_uint8 (of_mask autolevel)) in
  np_info autolevel "Auto Level" ;;;
  ret autolevel.

Definition filter_subtract_mean (np_img : ndarray) (neigh : Z)
    (output_type : string) : M ndarray :=
  selem <- lift (np_ones neigh neigh) ;;
  subtract_mean <- lift (rank_subtract_mean np_img selem) ;;
  subtract_mean <- lift (compare_arrays gt np_img subtract_mean) ;;
  let subtract_mean :=
    if String.eqb output_type "bool" then of_mask subtract_mean
    else if String.eqb output_type "float" then astype_float (of_mask subtract_mean)
    else int_times 255 (astype_uint8 (of_mask subtract_mean)) in
  np_info subtract_mean "Subtract Mean" ;;;
  ret subtract_mean.

Definition filter_modal (np_img : ndarray) (neigh : Z) (output_type : string) : M ndarray :=
  selem <- lift (np_ones neigh neigh) ;;
  modal <- lift (rank_modal np_img selem) ;;
  np_info modal "Modal" ;;;
  ret modal.

End Filters.

(** ** The two filters without a selector *)

(** The routines [filter_contrast_stretch] and
    [filter_local_equalization] call.  Each may raise. *)
Class Contrast := {
  (** [np.percentile(a, (low, high))]: the two percentiles *)
  percentile : ndarray -> scalar -> scalar -> exn + scalar * scalar;
  (** [skimage.exposure.rescale_intensity(image, in_range=(low, high))] *)
  rescale_intensity : ndarray -> scalar * scalar -> exn + ndarray;
  (** [skimage.filters.rank.equalize(image, selem)] *)
  rank_equalize : ndarray -> ndarray -> exn + ndarray
}.

Section ContrastFilters.

Context `{Contrast}.

Definition filter_contrast_stretch (np_img : ndarray) (low high : scalar) : M ndarray :=
  p <- lift (percentile np_img low high) ;;
  let '(low_p, high_p) := p in
  contrast_stretch <- lift (rescale_intensity np_img (low_p, high_p)) ;;
  np_info contrast_stretch "Contrast Stretch" ;;;
  ret contrast_stretch.

Definition filter_local_equalization (np_img : ndarray) (disk_size : Z) : M ndarray :=
  local_equ <- lift (rank_equalize np_img (disk disk_size)) ;;
  np_info local_equ "Local Equalization" ;;;
  ret local_equ.

End ContrastFilters.

(** ** The module's own top level *)

Section Script.

Context `{Host}.

Definition pil_to_np_rgb (pil_img : pil_image) : M ndarray :=
  let rgb := asarray pil_img in
  np_info rgb "RGB" ;;;
  ret rgb.

Definition np_to_pil (np_img : ndarray) : M pil_image :=
  lift (fromarray np_img).

Definition show_image (pil_img : pil_image) : M unit :=
  lift (show pil_img) ;;;
  tell (Shown (asarray pil_img)).

(** The names bound when the last statement of the file runs: the
    imports, the functions defined by a [def] and the variables
    assigned so far.  The [def] of [filter_try] is commented out. *)
Definition module_globals : list string :=
  [ "plt"; "np"; "PIL"; "sk_exposure"; "sk_feature"; "sk_filters";
    "sk_morphology"; "slide"; "Time";
    "pil_to_np_rgb"; "np_to_pil"; "filter_rgb_to_grayscale";
    "filter_complement"; "np_info"; "filter_hysteresis_threshold";
    "filter_otsu_threshold"; "filter_local_otsu_threshold";
    "filter_entropy"; "filter_canny"; "filter_remove_small_objects";
    "filter_contrast_stretch"; "filter_histogram_equalization";
    "filter_adaptive_equalization"; "filter_local_equalization";
    "filter_autolevel"; "filter_subtract_mean"; "filter_modal";
    "img_path"; "img"; "rgb"; "gray"; "complement" ].

(** Reading a global name. *)
Definition load_global (name : string) : M unit :=
  if existsb (String.eqb name) module_globals
  then ret tt
  else raise (NameError name).

(** The statements up to [complement = filter_complement(gray)]. *)
Definition module_prefix : M ndarray :=
  img_path <- lift (get_training_thumb_path 2) ;;
  img <- lift (open_image img_path) ;;
  rgb <- pil_to_np_rgb img ;;
  gray <- filter_rgb_to_grayscale rgb "uint8" ;;
  (pil <- np_to_pil gray ;; show_image pil) ;;;
  filter_complement gray "uint8".

(** The whole top level; its last statement [tryit = filter_try(gray)]
    starts by reading the name [filter_try]. *)
Definition module_toplevel : M unit :=
  module_prefix ;;;
  load_global "filter_try".

End Script.

(** ** Reference models of scikit-image routines

    Written from the documentation of scikit-image and of
    [scipy.ndimage], for two-dimensional arrays. *)

Module Sk.

Definition pixel : Type := Z * Z.

(** Position [k] of the flat buffer of an array of width [w]. *)
Definition pixel_of (w : nat) (k : nat) : pixel :=
  (Z.of_nat k / Z.of_nat w, Z.of_nat k mod Z.of_nat w).

Definition in_row (w : nat) (p : pixel) : Prop :=
  0 ≤ p.1 ∧ 0 ≤ p.2 < Z.of_nat w.

(** Entry [(i, j)] of a buffer read as rows of width [w]. *)
Definition at2 {A} (w : nat) (l : list A) (p : pixel) : option A :=
  if bool_decide (in_row w p)
  then l !! Z.to_nat (p.1 * Z.of_nat w + p.2)
  else None.

Definition is_set (w : nat) (l : list bool) (p : pixel) : bool :=
  bool_decide (at2 w l p = Some true).

(** [scipy.ndimage.generate_binary_structure(2, connectivity)]: the
    neighbours of a pixel are the pixels at squared distance at most
    [connectivity], so 1 gives the four edge neighbours and 2 adds
    the four diagonal ones. *)
Definition structure (connectivity : Z) : list (Z * Z) :=
  filter (λ d, d.1 * d.1 + d.2 * d.2 ≤ connectivity)
    [(-1, -1); (-1, 0); (-1, 1); (0, -1); (0, 1); (1, -1); (1, 0); (1, 1)].

Definition neighbours (connectivity : Z) (p : pixel) : list pixel :=
  (λ d, (p.1 + d.1, p.2 + d.2)) <$> structure connectivity.

Section Label.

(** The foreground of the image being labelled. *)
Variable fg : pixel → bool.
Variable connectivity : Z.

(** One round of flood fill: add the foreground neighbours. *)
Definition grow (s : gset pixel) : gset pixel :=
  s ∪ list_to_set (filter (λ q, fg q = true) (elements s ≫= neighbours connectivity)).

Fixpoint flood (fuel : nat) (s : gset pixel) : gset pixel :=
  match fuel with
  | O => s
  | S fuel' => flood fuel' (grow s)
  end.

(** The connected component (the object [scipy.ndimage.label]
    numbers) of a pixel; [n] bounds the number of pixels. *)
Definition component (n : nat) (p : pixel) : gset pixel :=
  if fg p then flood n {[p]} else ∅.

End Label.

(** [skimage.morphology.remove_small_objects(ar, min_size,
    connectivity)] on a boolean array: the array is labelled, and
    every pixel whose object has fewer than [min_size] pixels is
    cleared.  [min_size = 0] returns a copy at once. *)
Definition remove_small_objects (ar : mask) (min_size : Z) (connectivity : Z) : exn + mask :=
  match mshape ar with
  | [h; w] =>
      if min_size =? 0 then inr ar
      else
        let obj := component (is_set w (bits ar)) connectivity (length (bits ar)) in
        inr (Mask (mshape ar)
               (imap (λ k b,
                  b && negb (Z.of_nat (size (obj (pixel_of w k))) <? min_size))
                  (bits ar)))
  | _ => inl (OtherError "only two-dimensional arrays are modelled")
  end.

(** [skimage.filters.apply_hysteresis_threshold(image, low, high)]:
    [low] is clipped to [high]; a pixel is kept when its object in
    [image > low] holds a pixel of [image > high] (the default
    structure of [scipy.ndimage.label] has connectivity 1).  The
    pixels outside [image > low] share label 0. *)
Definition apply_hysteresis_threshold (image : ndarray) (low high : scalar) : exn + mask :=
  match shape image with
  | [h; w] =>
      let low := if gt low high then high else low in
      let mask_low := bits (gt_number image low) in
      let mask_high := bits (gt_number image high) in
      let obj := component (is_set w mask_low) 1 (length mask_low) in
      let label0 := existsb id (zip_with (λ l h, negb l && h) mask_low mask_high) in
      inr (Mask (shape image)
             (imap (λ k (l : bool),
                if l
                then existsb (is_set w mask_high) (elements (obj (pixel_of w k)))
                else label0)
                mask_low))
  | _ => inl (OtherError "only two-dimensional arrays are modelled")
  end.

(** The kernel of [skimage.filters.rank.subtract_mean] at a pixel of
    grey level [g] whose neighbourhood holds the grey levels [nb]:
    half the difference to the local mean, shifted by 127, in double
    precision and converted to [uint8]. *)
Definition kernel_subtract_mean (nb : list Z) (g : Z) : Z :=
  let pop := Z.of_nat (length nb) in
  let mean := foldr Z.add 0 nb in
  if pop =? 0 then 0
  else wrap_uint8 (F2Z ((Z2F g - Z2F mean / Z2F pop) / 2 + 127)%float).

(** The offsets of the set entries of a structuring element from its
    centre [(rows / 2, columns / 2)]. *)
Definition selem_offsets (selem : ndarray) : list (Z * Z) :=
  match shape selem with
  | [sh; sw] =>
      let on := (λ v, gt v (SInt 0)) <$> values (data selem) in
      omap (λ k, if is_set sw on (pixel_of sw k)
                 then Some ((pixel_of sw k).1 - Z.of_nat (sh / 2),
                            (pixel_of sw k).2 - Z.of_nat (sw / 2))
                 else None)
        (seq 0 (length on))
  | _ => []
  end.

(** The grey levels of the pixels of the image under the structuring
    element centred at [p]; positions outside the image do not count. *)
Definition neighbourhood (w : nat) (px : list Z) (offs : list (Z * Z)) (p : pixel) : list Z :=
  omap (λ d, at2 w px (p.1 + d.1, p.2 + d.2)) offs.

(** [skimage.filters.rank.subtract_mean(image, selem)] on a [uint8]
    image.  The rank filters assert that the centre
    [(rows / 2, columns / 2)] of the structuring element lies inside
    it, which fails for an element without rows or without columns. *)
Definition rank_subtract_mean (image selem : ndarray) : exn + ndarray :=
  match data image, shape image, shape selem with
  | UInt8Buf px, [h; w], [sh; sw] =>
      if (sh =? 0)%nat || (sw =? 0)%nat then inl AssertionError
      else
        let offs := selem_offsets selem in
        inr (NdArray (shape image)
               (UInt8Buf (imap (λ k g,
                  kernel_subtract_mean (neighbourhood w px offs (pixel_of w k)) g) px)))
  | _, _, _ => inl (OtherError "only two-dimensional uint8 images are modelled")
  end.

Definition not_modelled {A} : exn + A := inl (OtherError "not modelled").

(** [skimage.filters.rank.modal(image, selem)] on a [uint8] image, for
    the window of one pixel only: the most frequent grey level under
    that window is the pixel itself. *)
Definition rank_modal (image selem : ndarray) : exn + ndarray :=
  match data image, shape image, selem_offsets selem with
  | UInt8Buf _, [h; w], [(0, 0)] => inr image
  | _, _, _ => not_modelled
  end.

(** The routines above behind the interface of the filters, called
    the way [filter.py] calls them ([remove_small_objects] with its
    default [connectivity=1]). *)
#[export] Instance reference : SkImage := {
  apply_hysteresis_threshold := apply_hysteresis_threshold;
  threshold_otsu _ := not_modelled;
  rank_otsu _ _ := not_modelled;
  rank_entropy _ _ := not_modelled;
  canny _ _ _ _ := not_modelled;
  remove_small_objects ar min_size := remove_small_objects ar min_size 1;
  equalize_hist _ _ := not_modelled;
  equalize_adapthist _ _ _ := not_modelled;
  rank_autolevel _ _ := not_modelled;
  rank_subtract_mean := rank_subtract_mean;
  rank_modal := rank_modal
}.

End Sk.

(** ** Vocabulary of the properties *)

(** The five transforms of the threshold family, with their parameters. *)
Inductive threshold_transform :=
| Hysteresis (low high : scalar)
| GlobalOtsu
| LocalOtsu (disk_size : Z)
| Entropy (neighborhood : Z) (threshold : scalar)
| Canny (sigma low_threshold high_threshold : scalar).

Definition run_threshold `{SkImage} (f : threshold_transform) (np_img : ndarray)
    (output_type : string) : M ndarray :=
  match f with
  | Hysteresis low high => filter_hysteresis_threshold np_img low high output_type
  | GlobalOtsu => filter_otsu_threshold np_img output_type
  | LocalOtsu disk_size => filter_local_otsu_threshold np_img disk_size output_type
  | Entropy neighborhood threshold => filter_entropy np_img neighborhood threshold output_type
  | Canny sigma low high => filter_canny np_img sigma low high output_type
  end.

(** The library routines a transform of the family calls return, and
    the boolean array the transform then has is not empty.  For local
    Otsu the array of thresholds has the shape of the image, as the
    rank filters return it. *)
Definition library_returns `{SkImage} (f : threshold_transform) (np_img : ndarray) : Prop :=
  match f with
  | Hysteresis low high =>
      ∃ hyst, apply_hysteresis_threshold np_img low high = inr hyst ∧ bits hyst ≠ []
  | GlobalOtsu =>
      ∃ otsu_thresh_value, threshold_otsu np_img = inr otsu_thresh_value
                           ∧ size_of np_img ≠ 0%nat
  | LocalOtsu disk_size =>
      ∃ local_otsu, rank_otsu np_img (disk disk_size) = inr local_otsu
                    ∧ same_shape np_img local_otsu = true
                    ∧ size_of np_img ≠ 0%nat
  | Entropy neighborhood threshold =>
      ∃ selem entr, np_ones neighborhood neighborhood = inr selem
                    ∧ rank_entropy np_img selem = inr entr
                    ∧ size_of entr ≠ 0%nat
  | Canny sigma low_threshold high_threshold =>
      ∃ can, canny np_img sigma low_threshold high_threshold = inr can ∧ bits can ≠ []
  end.

(** Every function of the file that has an [output_type] parameter. *)
Inductive transform :=
| Grayscale
| Complement
| Threshold (f : threshold_transform)
| RemoveSmallObjects (min_size : Z)
| HistogramEqualization (nbins : Z)
| AdaptiveEqualization (nbins : Z) (clip_limit : scalar)
| Autolevel (disk_size : Z)
| SubtractMean (neigh : Z)
| Modal (neigh : Z).

Definition run_transform `{SkImage} (f : transform) (np_img : ndarray)
    (output_type : string) : M ndarray :=
  match f with
  | Grayscale => filter_rgb_to_grayscale np_img output_type
  | Complement => filter_complement np_img output_type
  | Threshold f => run_threshold f np_img output_type
  | RemoveSmallObjects min_size => filter_remove_small_objects np_img min_size output_type
  | HistogramEqualization nbins => filter_histogram_equalization np_img nbins output_type
  | AdaptiveEqualization nbins clip_limit =>
      filter_adaptive_equalization np_img nbins clip_limit output_type
  | Autolevel disk_size => filter_autolevel np_img disk_size output_type
  | SubtractMean neigh => filter_subtract_mean np_img neigh output_type
  | Modal neigh => filter_modal np_img neigh output_type
  end.

(** The three representations of a binary image. *)
Definition is_bool_array (r : ndarray) : Prop := dtype_of (data r) = bool_.

Definition is_float_mask (r : ndarray) : Prop :=
  ∃ l, data r = Float64Buf l ∧ Forall (λ x, x = 0%float ∨ x = 1%float) l.

Definition is_uint8_mask (r : ndarray) : Prop :=
  ∃ l, data r = UInt8Buf l ∧ Forall (λ x, x = 0 ∨ x = 255) l.

(** What the selector promises about the returned array. *)
Definition representation (output_type : string) (r : ndarray) : Prop :=
  (output_type = "bool" → is_bool_array r) ∧
  (output_type = "float" → is_float_mask r) ∧
  (output_type = "uint8" → is_uint8_mask r).

(** [a == b] on two numbers, and [(a == b).all()] on two arrays of one
    shape. *)
Definition eq_number (a b : scalar) : bool :=
  if is_float a || is_float b
  then PrimFloat.eqb (to_float a) (to_float b)
  else to_Z a =? to_Z b.

Definition array_equal (a b : ndarray) : bool :=
  same_shape a b && forallb id (zip_cmp eq_number a b).

Definition double_complement (x : ndarray) (t : string) : M ndarray :=
  y <- filter_complement x t ;;
  filter_complement y t.

(** A pixel the float complement gives back when it is applied twice:
    [1.0 - (1.0 - x) == x] in binary64. *)
Definition survives_double_complement (x : float) : bool :=
  PrimFloat.eqb (1 - (1 - x)) x.

(** An RGB image of [uint8] samples given pixel by pixel, and the
    weighted sum the grayscale filter forms for one pixel. *)
Definition rgb_image (h w : nat) (pxs : list (Z * Z * Z)) : ndarray :=
  NdArray [h; w; 3%nat] (UInt8Buf (pxs ≫= λ '(r, g, b), [r; g; b])).

Definition luminance (px : Z * Z * Z) : float :=
  let '(r, g, b) := px in
  dot3 (0.2125, 0.7154, 0.0721)%float [SInt r; SInt g; SInt b].

(** Two foreground pixels are connected when a path of foreground
    pixels, each a neighbour of the one before, leads from one to the
    other. *)
Inductive connected (fg : Sk.pixel → bool) (connectivity : Z) (p : Sk.pixel) :
    Sk.pixel → Prop :=
| connected_refl : fg p = true → connected fg connectivity p p
| connected_step q r :
    connected fg connectivity p q →
    r ∈ Sk.neighbours connectivity q →
    fg r = true →
    connected fg connectivity p r.

(** The positions of a buffer read as rows of width [w]. *)
Definition pixels_of (w : nat) (bits : list bool) : gset Sk.pixel :=
  list_to_set (Sk.pixel_of w <$> seq 0 (length bits)).

(** [r] is [np_img], read as a boolean image of width [w], without the
    objects of fewer than [min_size] pixels: a pixel of [r] is set iff
    the pixel of [np_img] is non-zero and its object, the set [obj] of
    the pixels connected to it, has at least [min_size] pixels. *)
Definition without_small_objects (connectivity : Z) (np_img : ndarray) (w : nat)
    (min_size : Z) (r : ndarray) : Prop :=
  shape r = shape np_img ∧
  ∀ k v, flat np_img k = Some v →
    ∃ obj : gset Sk.pixel,
      (∀ q, q ∈ obj ↔
            connected (Sk.is_set w (bits (to_mask np_img))) connectivity (Sk.pixel_of w k) q) ∧
      flat r k = Some (SBool (truthy v && (min_size <=? Z.of_nat (size obj)))).

(** The grey level [g] of pixel [k] exceeds the arithmetic mean of the
    grey levels under the window: [g > sum / count], on the integers. *)
Definition exceeds_local_mean (w : nat) (px : list Z) (offs : list (Z * Z))
    (k : nat) (g : Z) : bool :=
  let nb := Sk.neighbourhood w px offs (Sk.pixel_of w k) in
  foldr Z.add 0 nb <? g * Z.of_nat (length nb).

(** The offsets, from the pixel it is centred on, of a square window
    of side [n]: rows and columns [- n / 2] to [n - 1 - n / 2]. *)
Definition square_window (n : Z) : list (Z * Z) :=
  i ← seq 0 (Z.to_nat n);
  j ← seq 0 (Z.to_nat n);
  [(Z.of_nat i - n / 2, Z.of_nat j - n / 2)].

(** A host for examples: the thumbnail is one orange pixel. *)
Definition example_host : Host := {|
  pil_image := ndarray;
  get_training_thumb_path n := inr "thumbnail.png";
  open_image _ := inr (rgb_image 1 1 [(255, 128, 0)]);
  asarray img := img;
  fromarray a := inr a;
  show _ := inr tt
|}.

(** A stand-in for the library in examples of the Otsu filters: both
    routines answer with the grey level 127 (the other routines are
    those of [Sk.reference]).  It stands for no version of the library;
    the properties below hold for every implementation of the
    interface. *)
Definition example_sk : SkImage := {|
  apply_hysteresis_threshold := Sk.apply_hysteresis_threshold;
  threshold_otsu _ := inr (SInt 127);
  rank_otsu image _ :=
    inr (NdArray (shape image) (UInt8Buf ((λ _, 127) <$> values (data image))));
  rank_entropy _ _ := Sk.not_modelled;
  canny _ _ _ _ := Sk.not_modelled;
  remove_small_objects ar min_size := Sk.remove_small_objects ar min_size 1;
  equalize_hist _ _ := Sk.not_modelled;
  equalize_adapthist _ _ _ := Sk.not_modelled;
  rank_autolevel _ _ := Sk.not_modelled;
  rank_subtract_mean := Sk.rank_subtract_mean;
  rank_modal := Sk.rank_modal
|}.

(** ** Vocabulary of the further properties *)

(** A call of any of the fifteen filters. *)
Inductive filter_call :=
| Call (f : transform) (output_type : string)
| ContrastStretch (low high : scalar)
| LocalEqualization (disk_size : Z).

Definition run_call `{SkImage} `{Contrast} (c : filter_call) (np_img : ndarray) : M ndarray :=
  match c with
  | Call f output_type => run_transform f np_img output_type
  | ContrastStretch low high => filter_contrast_stretch np_img low high
  | LocalEqualization disk_size => filter_local_equalization np_img disk_size
  end.

(** The label a filter hands to [np_info]. *)
Definition label (c : filter_call) : string :=
  match c with
  | Call Grayscale _ => "Gray"
  | Call Complement _ => "Complement"
  | Call (Threshold (Hysteresis _ _)) _ => "Hysteresis Threshold"
  | Call (Threshold GlobalOtsu) _ => "Otsu Threshold"
  | Call (Threshold (LocalOtsu _)) _ => "Otsu Local Threshold"
  | Call (Threshold (Entropy _ _)) _ => "Entropy"
  | Call (Threshold (Canny _ _ _)) _ => "Canny Edges"
  | Call (RemoveSmallObjects _) _ => "Remove Small Objs"
  | Call (HistogramEqualization _) _ => "Hist Equalization"
  | Call (AdaptiveEqualization _ _) _ => "Adapt Equalization"
  | Call (Autolevel _) _ => "Auto Level"
  | Call (SubtractMean _) _ => "Subtract Mean"
  | Call (Modal _) _ => "Modal"
  | ContrastStretch _ _ => "Contrast Stretch"
  | LocalEqualization _ => "Local Equalization"
  end.

(** A run that returns has printed one line, with the given label and
    the element type and shape of the array returned, which has an
    element; a run that raises has printed nothing. *)
Definition one_line (name : string) (m : M ndarray) : Prop :=
  match m with
  | (log, inr r) => log = [Printed name (dtype_of (data r)) (shape r)] ∧ size_of r ≠ 0%nat
  | (log, inl _) => log = []
  end.

(** The filters that end with the choice of a representation of a
    boolean array. *)
Definition is_mask_transform (f : transform) : bool :=
  match f with
  | Threshold _ | RemoveSmallObjects _ | Autolevel _ | SubtractMean _ => true
  | _ => false
  end.

(** The filters whose result has one element per element of the image,
    whatever the library returns. *)
Definition is_pointwise (f : transform) : bool :=
  match f with
  | Complement | Threshold GlobalOtsu | Threshold (LocalOtsu _)
  | Autolevel _ | SubtractMean _ => true
  | _ => false
  end.

(** The array of the library that a filter compares the image with,
    element by element, for the filters that do. *)
Definition compared_with `{SkImage} (f : transform) (np_img : ndarray)
    : option (exn + ndarray) :=
  match f with
  | Threshold (LocalOtsu disk_size) => Some (rank_otsu np_img (disk disk_size))
  | Autolevel disk_size => Some (rank_autolevel np_img (disk disk_size))
  | SubtractMean neigh =>
      Some (match np_ones neigh neigh with
            | inl e => inl e
            | inr selem => rank_subtract_mean np_img selem
            end)
  | _ => None
  end.

(** The three representations of the boolean array of bits [l]. *)
Definition encode (output_type : string) (sh : list nat) (l : list bool) : ndarray :=
  if String.eqb output_type "bool" then NdArray sh (BoolBuf l)
  else if String.eqb output_type "float" then NdArray sh (Float64Buf (b2f <$> l))
  else NdArray sh (UInt8Buf ((λ b : bool, if b then 255 else 0) <$> l)).

(** A family of runs, one per selector, that all encode one boolean
    array. *)
Definition encodes (K : string → M ndarray) : Prop :=
  ∀ t r, returns (K t) r →
    ∃ sh l, l ≠ [] ∧ ∀ t', returns (K t') (encode t' sh l).

(** The element type of the complement of an array of element type
    [d]. *)
Definition complement_dtype (output_type : string) (d : dtype) : dtype :=
  if String.eqb output_type "float" then float64
  else match d with bool_ => int64 | _ => d end.

(** An RGBA image of [uint8] samples given pixel by pixel. *)
Definition rgba_image (h w : nat) (pxs : list (Z * Z * Z * Z)) : ndarray :=
  NdArray [h; w; 4%nat] (UInt8Buf (pxs ≫= λ '(r, g, b, a), [r; g; b; a])).

Definition drop_alpha (px : Z * Z * Z * Z) : Z * Z * Z :=
  let '(r, g, b, _) := px in (r, g, b).

(** A [uint8] sample. *)
Definition is_uint8 (v : Z) : Prop := 0 ≤ v ≤ 255.

(** The filters whose selector only tells "float" from the rest. *)
Definition is_two_way (f : transform) : bool :=
  match f with
  | Grayscale | Complement | HistogramEqualization _ | AdaptiveEqualization _ _ => true
  | _ => false
  end.

(** Those of them that end with [astype("uint8")]. *)
Definition casts_to_uint8 (f : transform) : bool :=
  match f with
  | Grayscale | HistogramEqualization _ | AdaptiveEqualization _ _ => true
  | _ => false
  end.

(** A filter of the file followed by [filter_remove_small_objects], as
    in [filter_remove_small_objects(filter_hysteresis_threshold(img))]. *)
Definition then_remove_small_objects `{SkImage} (f : transform) (np_img : ndarray)
    (mask_type : string) (min_size : Z) (output_type : string) : M ndarray :=
  mask <- run_transform f np_img mask_type ;;
  filter_remove_small_objects mask min_size output_type.

(** A float between 0 and 1. *)
Definition unit_interval (x : float) : Prop :=
  PrimFloat.leb 0 x = true ∧ PrimFloat.leb x 1 = true.

(** ** Properties *)

(** *** The monad *)

Lemma returns_bind {A B} (m : M A) (k : A → M B) (y : B) :
  returns (bind m k) y → ∃ x, returns m x ∧ returns (k x) y.
Proof.
  unfold returns, bind. destruct m as [log [e | x]]; simpl; [discriminate |].
  destruct (k x) as [log' r] eqn:E. simpl. intros ->. exists x. by rewrite E.
Qed.

Lemma bind_returns {A B} (m : M A) (k : A → M B) (x : A) (y : B) :
  returns m x → returns (k x) y → returns (bind m k) y.
Proof.
  unfold returns, bind. destruct m as [log [e | x']]; simpl; [discriminate |].
  intros [= ->]. by destruct (k x).
Qed.

Lemma returns_lift {A} (r : exn + A) (x : A) : returns (lift r) x ↔ r = inr x.
Proof. unfold returns. destruct r; simpl; split; congruence. Qed.

(** A filter ends with [np_info(x, name); return x]. *)
Lemma returns_report (x r : ndarray) (name : string) :
  returns (np_info x name ;;; ret x) r ↔ size_of x ≠ 0%nat ∧ r = x.
Proof.
  unfold np_info, returns. destruct (Nat.eqb_spec (size_of x) 0) as [E | E]; simpl.
  - split; [discriminate | tauto].
  - split; [intros [= ->]; done | intros [_ ->]; done].
Qed.

(** *** The three representations of a boolean array *)

Lemma of_mask_bool (m : mask) : is_bool_array (of_mask m).
Proof. reflexivity. Qed.

Lemma astype_float_mask (m : mask) : is_float_mask (astype_float (of_mask m)).
Proof.
  eexists. split; [reflexivity |]. simpl. rewrite map_map.
  apply List.Forall_map, Forall_forall. intros [] _; simpl; auto.
Qed.

(** [(255 * m).astype("uint8")], the route of the hysteresis filter. *)
Lemma times_then_uint8_mask (m : mask) :
  is_uint8_mask (astype_uint8 (int_times 255 (of_mask m))).
Proof.
  eexists. split; [reflexivity |]. simpl. rewrite !map_map.
  apply List.Forall_map, Forall_forall. intros [] _; simpl; auto.
Qed.

(** [m.astype("uint8") * 255], the route of the other filters. *)
Lemma uint8_then_times_mask (m : mask) :
  is_uint8_mask (int_times 255 (astype_uint8 (of_mask m))).
Proof.
  eexists. split; [reflexivity |]. simpl. rewrite !map_map.
  apply List.Forall_map, Forall_forall. intros [] _; simpl; auto.
Qed.

Lemma representation_select (output_type : string) (b f u : ndarray) :
  is_bool_array b → is_float_mask f → is_uint8_mask u →
  representation output_type
    (if String.eqb output_type "bool" then b
     else if String.eqb output_type "float" then f
     else u).
Proof.
  intros Hb Hf Hu. unfold representation.
  repeat split; intros ->; simpl; assumption.
Qed.

(** Strips the calls that precede the choice of the representation. *)
Ltac open_filter H :=
  repeat match type of H with
    | returns (bind (lift _) _) _ =>
        let x := fresh "x" in
        let Hx := fresh "Hx" in
        apply returns_bind in H as (x & Hx & H);
        apply (proj1 (returns_lift _ _)) in Hx
    | returns (bind (np_info _ _) _) _ =>
        apply (proj1 (returns_report _ _ _)) in H as [_ ->]
    end.

(** Whether a filter returns does not depend on the selector: the
    three representations of a mask have its size. *)
Lemma select_size (output_type : string) (m : mask) (u : ndarray) :
  size_of u = length (bits m) →
  size_of (if String.eqb output_type "bool" then of_mask m
           else if String.eqb output_type "float" then astype_float (of_mask m)
           else u) = length (bits m).
Proof.
  intros Hu. destruct (String.eqb output_type "bool"), (String.eqb output_type "float");
    try exact Hu; unfold size_of; simpl; by rewrite ?length_map.
Qed.

Lemma size_times_then_uint8 (m : mask) :
  size_of (astype_uint8 (int_times 255 (of_mask m))) = length (bits m).
Proof. unfold size_of. simpl. by rewrite !length_map. Qed.

Lemma size_uint8_then_times (m : mask) :
  size_of (int_times 255 (astype_uint8 (of_mask m))) = length (bits m).
Proof. unfold size_of. simpl. by rewrite !length_map. Qed.

Lemma returns_bind_lift {A B} (r : exn + A) (k k' : A → M B) (y : B) :
  (∀ x y, returns (k x) y → ∃ y', returns (k' x) y') →
  returns (bind (lift r) k) y → ∃ y', returns (bind (lift r) k') y'.
Proof.
  intros Hk Hy. apply returns_bind in Hy as (x & Hx & Hy).
  destruct (Hk x y Hy) as [y' Hy']. exists y'. by eapply bind_returns.
Qed.

Lemma report_select_returns (t t' name : string) (m : mask) (u r : ndarray) :
  size_of u = length (bits m) →
  returns (let x := if String.eqb t "bool" then of_mask m
                    else if String.eqb t "float" then astype_float (of_mask m)
                    else u in
           np_info x name ;;; ret x) r →
  ∃ r', returns (let x := if String.eqb t' "bool" then of_mask m
                          else if String.eqb t' "float" then astype_float (of_mask m)
                          else u in
                 np_info x name ;;; ret x) r'.
Proof.
  intros Hu Hr. cbv zeta in *. apply returns_report in Hr as [Hne _].
  eexists. apply returns_report. split; [| reflexivity].
  rewrite select_size in * by done. exact Hne.
Qed.

Lemma run_threshold_returns `{SkImage} (f : threshold_transform) (np_img : ndarray)
    (t t' : string) (r : ndarray) :
  returns (run_threshold f np_img t) r → ∃ r', returns (run_threshold f np_img t') r'.
Proof.
  destruct f; simpl;
    [ unfold filter_hysteresis_threshold
    | unfold filter_otsu_threshold
    | unfold filter_local_otsu_threshold
    | unfold filter_entropy
    | unfold filter_canny ];
    repeat (apply returns_bind_lift; intros ? ?);
    apply report_select_returns;
    auto using size_times_then_uint8, size_uint8_then_times.
Qed.

(** Arrays of one shape are compared element by element. *)
Lemma compare_arrays_same_shape cmp (a b : ndarray) :
  same_shape a b = true →
  compare_arrays cmp a b = inr (Mask (shape a) (zip_cmp cmp a b)).
Proof. intros Hshape. unfold compare_arrays. by rewrite Hshape. Qed.

Lemma same_shape_size (a b : ndarray) :
  same_shape a b = true → shape a = shape b ∧ size_of b = size_of a.
Proof.
  unfold same_shape. intros [Hsh Hsz]%andb_true_iff.
  apply bool_decide_eq_true in Hsh. apply Nat.eqb_eq in Hsz. done.
Qed.

Lemma report_select_size (t name : string) (m : mask) (u : ndarray) :
  size_of u = length (bits m) → bits m ≠ [] →
  ∃ r, returns (let x := if String.eqb t "bool" then of_mask m
                         else if String.eqb t "float" then astype_float (of_mask m)
                         else u in
                np_info x name ;;; ret x) r.
Proof.
  intros Hu Hne. cbv zeta. eexists. apply returns_report. split; [| reflexivity].
  rewrite select_size by done. by destruct (bits m).
Qed.

(** A transform of the family returns as soon as its library routines
    do. *)
Lemma library_returns_run_threshold `{SkImage} (f : threshold_transform)
    (np_img : ndarray) (t : string) :
  library_returns f np_img → ∃ r, returns (run_threshold f np_img t) r.
Proof.
  destruct f; simpl.
  - intros (hyst & Hhyst & Hne). unfold filter_hysteresis_threshold.
    destruct (report_select_size t "Hysteresis Threshold" hyst _
                (size_times_then_uint8 hyst) Hne) as [r Hr].
    exists r. eapply bind_returns; [apply returns_lift; exact Hhyst | exact Hr].
  - intros (v & Hv & Hne). unfold filter_otsu_threshold.
    destruct (report_select_size t "Otsu Threshold" (gt_number np_img v) _
                (size_uint8_then_times _)) as [r Hr].
    { simpl. unfold size_of in Hne. by destruct (values (data np_img)). }
    exists r. eapply bind_returns; [apply returns_lift; exact Hv | exact Hr].
  - intros (local_otsu & Hlib & Hshape & Hne). unfold filter_local_otsu_threshold.
    destruct (report_select_size t "Otsu Local Threshold"
                (Mask (shape np_img) (zip_cmp le np_img local_otsu)) _
                (size_uint8_then_times _)) as [r Hr].
    { destruct (same_shape_size _ _ Hshape) as [_ Hsz]. simpl. unfold zip_cmp, size_of in *.
      intros Hnil. apply (f_equal length) in Hnil. rewrite length_zip_with in Hnil.
      simpl in Hnil. lia. }
    exists r. eapply bind_returns; [apply returns_lift; exact Hlib |].
    eapply bind_returns; [| exact Hr].
    apply returns_lift. by apply compare_arrays_same_shape.
  - intros (selem & entr & Hones & Hlib & Hne). unfold filter_entropy.
    destruct (report_select_size t "Entropy" (gt_number entr threshold) _
                (size_uint8_then_times _)) as [r Hr].
    { simpl. unfold size_of in Hne. by destruct (values (data entr)). }
    exists r. eapply bind_returns; [apply returns_lift; exact Hones |].
    eapply bind_returns; [apply returns_lift; exact Hlib | exact Hr].
  - intros (can & Hcan & Hne). unfold filter_canny.
    destruct (report_select_size t "Canny Edges" can _
                (size_uint8_then_times can) Hne) as [r Hr].
    exists r. eapply bind_returns; [apply returns_lift; exact Hcan | exact Hr].
Qed.

(** C1: a transform of the threshold family (hysteresis, global Otsu,
    local Otsu, entropy, Canny) returns, for every selector, as soon as
    its library routines return and the boolean array they lead to has
    an element; and whatever the library routines compute, what it
    returns with [output_type] "bool" is an array of element type
    [bool], with "float" a [float64] array holding only 0.0 and 1.0, and
    with "uint8" a [uint8] array holding only 0 and 255. *)
Theorem threshold_family_representation `{SkImage} (f : threshold_transform)
    (np_img : ndarray) (output_type : string) :
  (library_returns f np_img →
   ∃ r, returns (run_threshold f np_img output_type) r ∧ representation output_type r)
  ∧ (∀ r, returns (run_threshold f np_img output_type) r →
       representation output_type r
       ∧ ∀ t, ∃ r', returns (run_threshold f np_img t) r' ∧ representation t r').
Proof.
  assert (Hrep : ∀ t r, returns (run_threshold f np_img t) r → representation t r).
  { clear. intros t r Hr.
    destruct f; simpl in Hr;
      [ unfold filter_hysteresis_threshold in Hr
      | unfold filter_otsu_threshold in Hr
      | unfold filter_local_otsu_threshold in Hr
      | unfold filter_entropy in Hr
      | unfold filter_canny in Hr ];
      open_filter Hr;
      apply representation_select;
      auto using of_mask_bool, astype_float_mask, times_then_uint8_mask,
        uint8_then_times_mask. }
  split.
  - intros Hlib.
    destruct (library_returns_run_threshold f np_img output_type Hlib) as [r Hr].
    exists r. split; [exact Hr | by apply Hrep].
  - intros r Hr. split; [by apply Hrep |].
    intros t. destruct (run_threshold_returns f np_img output_type t r Hr) as [r' Hr'].
    exists r'. split; [exact Hr' | by apply Hrep].
Qed.

Lemma threshold_family_representation_witness :
  let np_img := NdArray [2; 2]%nat (UInt8Buf [200; 60; 0; 7]) in
  ∃ r, returns (run_threshold (H := Sk.reference) (Hysteresis (SInt 50) (SInt 100))
                  np_img "uint8") r
       ∧ representation "uint8" r
       ∧ r = NdArray [2; 2]%nat (UInt8Buf [255; 255; 0; 0]).
Proof.
  intros np_img.
  assert (Hlib : library_returns (H := Sk.reference) (Hysteresis (SInt 50) (SInt 100)) np_img).
  { exists (Mask [2; 2]%nat [true; true; false; false]).
    split; [vm_compute; reflexivity | discriminate]. }
  destruct (proj1 (threshold_family_representation (H := Sk.reference)
                     (Hysteresis (SInt 50) (SInt 100)) np_img "uint8") Hlib)
    as (r & Hr & Hrep).
  exists r. split; [exact Hr |]. split; [exact Hrep |].
  assert (Hr' : returns (run_threshold (H := Sk.reference)
                           (Hysteresis (SInt 50) (SInt 100)) np_img "uint8")
                  (NdArray [2; 2]%nat (UInt8Buf [255; 255; 0; 0])))
    by (vm_compute; reflexivity).
  unfold returns in Hr, Hr'. congruence.
Defined.

(** The global Otsu filter returns whenever the library routine does
    and the image has a pixel: [output_type] never makes it raise. *)
Lemma filter_otsu_threshold_returns `{SkImage} (np_img : ndarray) (output_type : string)
    (v : scalar) :
  threshold_otsu np_img = inr v → size_of np_img ≠ 0%nat →
  ∃ r, returns (filter_otsu_threshold np_img output_type) r.
Proof.
  intros Hv Hne. unfold filter_otsu_threshold. rewrite Hv.
  eexists. eapply bind_returns; [by apply returns_lift |].
  apply returns_report. split; [| reflexivity].
  unfold size_of in *. destruct np_img as [sh d].
  destruct (String.eqb output_type "bool"), (String.eqb output_type "float");
    simpl in *; rewrite ?length_map; rewrite ?length_map in Hne; exact Hne.
Qed.

(** C2: for every function with an [output_type] parameter, a selector
    other than "bool" and "float" gives exactly the outcome of "uint8":
    the same value or the same exception, and the same printed lines. *)
Theorem unknown_output_type_is_uint8 `{SkImage} (f : transform) (np_img : ndarray)
    (output_type : string) :
  output_type ≠ "bool" → output_type ≠ "float" →
  run_transform f np_img output_type = run_transform f np_img "uint8".
Proof.
  intros Hb Hf.
  apply String.eqb_neq in Hb, Hf.
  destruct f as [ | | [] | | | | | | ]; simpl;
    unfold filter_rgb_to_grayscale, filter_complement, filter_hysteresis_threshold,
      filter_otsu_threshold, filter_local_otsu_threshold, filter_entropy, filter_canny,
      filter_remove_small_objects, filter_histogram_equalization,
      filter_adaptive_equalization, filter_autolevel, filter_subtract_mean, filter_modal;
    rewrite ?Hb, ?Hf; reflexivity.
Qed.

Lemma unknown_output_type_is_uint8_witness :
  "uint16" ≠ "bool" ∧ "uint16" ≠ "float" ∧
  run_transform (H := Sk.reference) Complement (NdArray [2]%nat (UInt8Buf [0; 200])) "uint16"
  = ([Printed "Complement" uint8 [2]%nat], inr (NdArray [2]%nat (UInt8Buf [255; 55]))).
Proof.
  assert (Hb : "uint16" ≠ "bool") by discriminate.
  assert (Hf : "uint16" ≠ "float") by discriminate.
  split; [exact Hb | split; [exact Hf |]].
  rewrite (unknown_output_type_is_uint8 (H := Sk.reference) Complement _ "uint16" Hb Hf).
  reflexivity.
Defined.

(** C9: [filter_modal] never looks at [output_type]: any two selectors
    give the same outcome, which is the array the rank filter returned. *)
Theorem filter_modal_ignores_output_type `{SkImage} (np_img : ndarray) (neigh : Z)
    (t1 t2 : string) :
  filter_modal np_img neigh t1 = filter_modal np_img neigh t2
  ∧ ∀ r, returns (filter_modal np_img neigh t1) r →
         ∃ selem, np_ones neigh neigh = inr selem ∧ rank_modal np_img selem = inr r.
Proof.
  split; [reflexivity |].
  intros r Hr. unfold filter_modal in Hr. open_filter Hr. eauto.
Qed.

Lemma filter_modal_ignores_output_type_witness :
  let np_img := NdArray [1; 2]%nat (UInt8Buf [3; 200]) in
  filter_modal (H := Sk.reference) np_img 1 "bool"
  = filter_modal (H := Sk.reference) np_img 1 "uint8"
  ∧ returns (filter_modal (H := Sk.reference) np_img 1 "bool") np_img
  ∧ ∃ selem, np_ones 1 1 = inr selem ∧ Sk.rank_modal np_img selem = inr np_img.
Proof.
  intros np_img.
  destruct (filter_modal_ignores_output_type (H := Sk.reference) np_img 1 "bool" "uint8")
    as [Heq Hr].
  assert (Hret : returns (filter_modal (H := Sk.reference) np_img 1 "bool") np_img)
    by reflexivity.
  exact (conj Heq (conj Hret (Hr np_img Hret))).
Defined.

(** *** Comparisons in binary64 *)

Lemma SFcompare_antisym (a b : spec_float) :
  SFcompare b a = option_map CompOpp (SFcompare a b).
Proof.
  destruct a as [[] | [] | | [] m1 e1], b as [[] | [] | | [] m2 e2]; simpl; try reflexivity;
    rewrite (Z.compare_antisym e1 e2),
      <- (Pos.compare_cont_antisym m1 m2 Eq : _ = Pos.compare_cont Eq m2 m1);
    destruct (e1 ?= e2); simpl; rewrite ?CompOpp_involutive; reflexivity.
Qed.

Lemma SFcompare_None (a b : spec_float) :
  SFcompare a b = None → a = S754_nan ∨ b = S754_nan.
Proof.
  destruct a as [[] | [] | | [] m1 e1], b as [[] | [] | | [] m2 e2]; simpl; auto; discriminate.
Qed.

Lemma is_nan_Prim2SF (x : float) : PrimFloat.is_nan x = false → Prim2SF x ≠ S754_nan.
Proof.
  unfold PrimFloat.is_nan. rewrite FloatAxioms.eqb_spec. intros Hx Hn. rewrite Hn in Hx. discriminate.
Qed.

(** Away from NaN, [a <= b] is the negation of [b < a]. *)
Lemma float_leb_negb_ltb (a b : float) :
  PrimFloat.is_nan a = false → PrimFloat.is_nan b = false →
  PrimFloat.leb a b = negb (PrimFloat.ltb b a).
Proof.
  intros Ha Hb. apply is_nan_Prim2SF in Ha, Hb.
  rewrite FloatAxioms.leb_spec, FloatAxioms.ltb_spec. unfold SFleb, SFltb.
  rewrite (SFcompare_antisym (Prim2SF a) (Prim2SF b)).
  destruct (SFcompare (Prim2SF a) (Prim2SF b)) as [[] |] eqn:E; simpl; try reflexivity.
  apply SFcompare_None in E as [? | ?]; contradiction.
Qed.

(** No [uint8] value converts to a NaN. *)
Lemma uint8_to_float_not_nan (z : Z) :
  0 ≤ z ≤ 255 → PrimFloat.is_nan (Z2F z) = false.
Proof.
  intros Hz.
  assert (Hall : forallb (λ z, negb (PrimFloat.is_nan (Z2F z))) (seqZ 0 256) = true)
    by (vm_compute; reflexivity).
  rewrite forallb_forall in Hall.
  apply negb_true_iff, Hall, list_elem_of_In, elem_of_seqZ. lia.
Qed.

(** *** The two Otsu filters *)

Lemma flat_of_mask (m : mask) (k : nat) : flat (of_mask m) k = SBool <$> bits m !! k.
Proof. unfold flat. simpl. apply list_lookup_fmap. Qed.

Lemma zip_cmp_lookup cmp (sh : list nat) (a b : ndarray) (k : nat) (x y : scalar) :
  flat a k = Some x → flat b k = Some y →
  flat (of_mask (Mask sh (zip_cmp cmp a b))) k = Some (SBool (cmp x y)).
Proof.
  intros Hx Hy. rewrite flat_of_mask. simpl. unfold zip_cmp.
  unfold flat in Hx, Hy. by rewrite lookup_zip_with, Hx, Hy.
Qed.

Lemma gt_number_lookup (a : ndarray) (c : scalar) (k : nat) (x : scalar) :
  flat a k = Some x → flat (of_mask (gt_number a c)) k = Some (SBool (gt x c)).
Proof.
  intros Hx. rewrite flat_of_mask. simpl. unfold flat in Hx.
  change (map ?f ?l) with (f <$> l). by rewrite list_lookup_fmap, Hx.
Qed.

(** The two comparisons are complementary on numbers that are not
    NaN. *)
Lemma le_negb_gt (x t : scalar) :
  PrimFloat.is_nan (to_float x) = false → PrimFloat.is_nan (to_float t) = false →
  le x t = negb (gt x t).
Proof.
  intros Hx Ht. unfold le, gt.
  destruct (is_float x || is_float t).
  - by apply float_leb_negb_ltb.
  - apply Z.leb_antisym.
Qed.

(** On a [uint8] pixel this needs no more than a threshold that is not
    NaN. *)
Lemma uint8_pixel_le_negb_gt (x : Z) (t : scalar) :
  0 ≤ x ≤ 255 → PrimFloat.is_nan (to_float t) = false →
  le (SInt x) t = negb (gt (SInt x) t).
Proof.
  intros Hx Ht. apply le_negb_gt; [| exact Ht]. by apply uint8_to_float_not_nan.
Qed.



(** *** The complement *)

Lemma filter_complement_uint8 (np_img : ndarray) :
  size_of np_img ≠ 0%nat →
  returns (filter_complement np_img "uint8") (int_minus 255 np_img).
Proof.
  intros Hne. unfold filter_complement. simpl String.eqb. cbv iota.
  apply returns_report. split; [| reflexivity].
  unfold size_of in *. destruct np_img as [sh []]; simpl in *;
    rewrite ?length_map in *; exact Hne.
Qed.

Lemma filter_complement_float (np_img : ndarray) :
  size_of np_img ≠ 0%nat →
  returns (filter_complement np_img "float") (float_minus 1 np_img).
Proof.
  intros Hne. unfold filter_complement. simpl String.eqb. cbv iota.
  apply returns_report. split; [| reflexivity].
  unfold size_of in *. simpl. rewrite !length_map. exact Hne.
Qed.

Lemma size_of_nonempty (sh : list nat) (b : buffer) :
  values b ≠ [] → size_of (NdArray sh b) ≠ 0%nat.
Proof. unfold size_of. simpl. by destruct (values b). Qed.

Lemma wrap_uint8_complement_twice (v : Z) :
  0 ≤ v ≤ 255 → wrap_uint8 (255 - wrap_uint8 (255 - v)) = v.
Proof.
  intros Hv. unfold wrap_uint8.
  rewrite (Z.mod_small (255 - v)) by lia. rewrite Z.mod_small by lia. lia.
Qed.

(** C4 as the specification states it fails in the float domain: the
    complement of the complement of 0.1 is 0.09999999999999998. *)
Lemma double_complement_float_counterexample :
  let x := NdArray [1; 1]%nat (Float64Buf [0.1%float]) in
  ∃ y, returns (double_complement x "float") y ∧ array_equal y x = false.
Proof.
  eexists. split; [unfold returns; vm_compute; reflexivity |].
  vm_compute. reflexivity.
Qed.

Lemma forallb_Forall {A} (f : A → bool) (l : list A) :
  forallb f l = true ↔ Forall (λ v, f v = true) l.
Proof.
  induction l as [| v l IH]; simpl.
  - split; [constructor | reflexivity].
  - rewrite andb_true_iff, IH. split.
    + intros [Hv Hl]. by constructor.
    + intros Hvl. by inversion Hvl.
Qed.

(** The comparison [y == x] of a float image with its double
    complement, pixel by pixel. *)
Lemma double_complement_float_equal (sh : list nat) (l : list float) :
  array_equal (float_minus 1 (float_minus 1 (NdArray sh (Float64Buf l))))
    (NdArray sh (Float64Buf l))
  = forallb survives_double_complement l.
Proof.
  unfold array_equal, same_shape, size_of, zip_cmp. simpl.
  rewrite bool_decide_eq_true_2 by reflexivity.
  rewrite !length_map, Nat.eqb_refl. simpl.
  induction l as [| v l IH]; [reflexivity |]. simpl. by rewrite IH.
Qed.

Lemma double_complement_raises_on_empty (x : ndarray) (t : string) :
  size_of x = 0%nat → ∃ e, raises (double_complement x t) e.
Proof.
  intros Hempty. unfold double_complement.
  destruct (filter_complement x t) as [log [e | y]] eqn:Hy.
  - exists e. reflexivity.
  - assert (Hr : returns (filter_complement x t) y) by (unfold returns; by rewrite Hy).
    unfold filter_complement in Hr. cbv zeta in Hr.
    apply returns_report in Hr as [Hne _]. exfalso. apply Hne.
    unfold size_of in *. destruct (String.eqb t "float"), x as [sh []]; simpl in *;
      rewrite ?length_map in *; exact Hempty.
Qed.

(** C4, amended: on an image with at least one pixel, the complement
    applied twice with "uint8" gives back every [uint8] image; applied
    twice with "float" to a float image it returns an image equal to
    the original exactly when every pixel [x] satisfies
    [1.0 - (1.0 - x) == x] in binary64.  Every multiple of 1 / 256
    between 0 and 1 does (so do 0.0 and 1.0, which even come back bit
    for bit), 172 of the 256 levels k / 255 do, and 0.1 does not.  On an
    image without pixels the complement raises. *)
Theorem double_complement_identity :
  (∀ sh l, l ≠ [] → Forall (λ v, 0 ≤ v ≤ 255) l →
     let x := NdArray sh (UInt8Buf l) in
     returns (double_complement x "uint8") x)
  ∧ (∀ sh l, l ≠ [] →
     let x := NdArray sh (Float64Buf l) in
     ∃ y, returns (double_complement x "float") y
          ∧ (array_equal y x = true
             ↔ Forall (λ v, survives_double_complement v = true) l))
  ∧ (∀ k, 0 ≤ k ≤ 256 → survives_double_complement (Z2F k / 256) = true)
  ∧ (∀ sh l, l ≠ [] → Forall (λ v, v = 0%float ∨ v = 1%float) l →
     let x := NdArray sh (Float64Buf l) in
     returns (double_complement x "float") x)
  ∧ length (filter (λ k, survives_double_complement (Z2F k / 255) = true) (seqZ 0 256))
    = 172%nat
  ∧ survives_double_complement 0.1 = false
  ∧ (∀ x t, size_of x = 0%nat → ∃ e, raises (double_complement x t) e).
Proof.
  split; [| split; [| split; [| split; [| split; [| split]]]]].
  - intros sh l Hne Hl x; unfold double_complement.
    eapply bind_returns.
    { apply filter_complement_uint8, size_of_nonempty. simpl. by destruct l. }
    assert (Hback : int_minus 255 (int_minus 255 x) = x).
    { unfold x, int_minus. simpl. do 2 f_equal. rewrite map_map.
      rewrite <- (map_id l) at 2. apply map_ext_Forall.
      eapply Forall_impl; [exact Hl |]. intros v Hv. by apply wrap_uint8_complement_twice. }
    rewrite <- Hback at 2.
    apply filter_complement_uint8, size_of_nonempty. simpl. rewrite map_map. by destruct l.
  - intros sh l Hne x. exists (float_minus 1 (float_minus 1 x)). split.
    + unfold double_complement. eapply bind_returns.
      { apply filter_complement_float, size_of_nonempty. simpl. by destruct l. }
      apply filter_complement_float, size_of_nonempty. simpl. rewrite !map_map.
      by destruct l.
    + unfold x. rewrite double_complement_float_equal. apply forallb_Forall.
  - intros k Hk.
    assert (Hall : forallb (λ k, survives_double_complement (Z2F k / 256)) (seqZ 0 257)
                   = true) by (vm_compute; reflexivity).
    rewrite forallb_forall in Hall. apply Hall, list_elem_of_In, elem_of_seqZ. lia.
  - intros sh l Hne Hl x; unfold double_complement.
    eapply bind_returns.
    { apply filter_complement_float, size_of_nonempty. simpl. by destruct l. }
    assert (Hback : float_minus 1 (float_minus 1 x) = x).
    { unfold x, float_minus. simpl. do 2 f_equal. rewrite !map_map.
      rewrite <- (map_id l) at 2. apply map_ext_Forall.
      eapply Forall_impl; [exact Hl |]. by intros v [-> | ->]. }
    rewrite <- Hback at 2.
    apply filter_complement_float, size_of_nonempty. simpl. rewrite !map_map. by destruct l.
  - vm_compute. reflexivity.
  - vm_compute. reflexivity.
  - apply double_complement_raises_on_empty.
Qed.

Lemma double_complement_identity_witness :
  (let x := NdArray [2; 2]%nat (UInt8Buf [128; 128; 0; 255]) in
   returns (double_complement x "uint8") x)
  ∧ (let x := NdArray [2]%nat (Float64Buf [0.25%float; 0.5%float]) in
     ∃ y, returns (double_complement x "float") y ∧ array_equal y x = true).
Proof.
  destruct double_complement_identity as (Hu & Hf & _).
  split.
  - apply (Hu [2; 2]%nat [128; 128; 0; 255]).
    + discriminate.
    + repeat constructor; lia.
  - assert (Hne : [0.25%float; 0.5%float] ≠ []) by discriminate.
    destruct (Hf [2]%nat [0.25%float; 0.5%float] Hne) as (y & Hy & Heq).
    exists y. split; [exact Hy |]. apply Heq.
    constructor; [vm_compute; reflexivity |]. constructor; [vm_compute; reflexivity |].
    constructor.
Defined.

(** *** Conversion of a float to an integer *)

(** [F2Z] drops the fraction: the magnitude of a finite float of
    mantissa [m] and exponent [e] is [m * 2 ^ e], and the integer kept
    is its floor, with the sign put back. *)
Lemma F2Z_finite (f : float) (s : bool) (m : positive) (e : Z) :
  Prim2SF f = S754_finite s m e →
  F2Z f = (if s then -1 else 1)
          * (if 0 <=? e then Z.pos m * 2 ^ e else Z.pos m / 2 ^ (- e)).
Proof.
  intros Hf. unfold F2Z. rewrite Hf.
  destruct (Z.leb_spec 0 e).
  - rewrite Z.shiftl_mul_pow2 by done. destruct s; lia.
  - rewrite Z.shiftl_div_pow2 by lia. destruct s; lia.
Qed.

(** *** The grayscale filter *)

Lemma chunks_rgb (pxs : list (Z * Z * Z)) (fuel : nat) :
  (length pxs ≤ fuel)%nat →
  chunks 3 (values (UInt8Buf (pxs ≫= λ '(r, g, b), [r; g; b]))) fuel
  = (λ '(r, g, b), [SInt r; SInt g; SInt b]) <$> pxs.
Proof.
  revert fuel. induction pxs as [| [[r g] b] pxs IH]; intros fuel Hfuel.
  - by destruct fuel.
  - destruct fuel as [| fuel]; [simpl in Hfuel; lia |].
    rewrite bind_cons, fmap_cons. simpl in *. f_equal. apply IH. lia.
Qed.

Lemma length_rgb (pxs : list (Z * Z * Z)) :
  length (pxs ≫= λ '(r, g, b), [r; g; b]) = (3 * length pxs)%nat.
Proof.
  induction pxs as [| [[r g] b] pxs IH]; [reflexivity |].
  rewrite bind_cons, length_app, IH. simpl. lia.
Qed.

Lemma dot_rgb_image (h w : nat) (pxs : list (Z * Z * Z)) :
  dot_rgb (rgb_image h w pxs) (0.2125, 0.7154, 0.0721)%float
  = inr (NdArray [h; w] (Float64Buf (luminance <$> pxs))).
Proof.
  unfold dot_rgb, rgb_image. simpl last. simpl removelast. cbv iota beta.
  simpl (3 <? 3)%nat. cbv iota. do 3 f_equal.
  unfold size_of. simpl data. rewrite chunks_rgb.
  - change (map ?f ?l) with (f <$> l). rewrite <- list_fmap_compose.
    apply list_fmap_ext. by intros _ [[r g] b] _.
  - simpl. rewrite length_map, length_rgb. lia.
Qed.

(** The grayscale filter on an RGB image of [uint8] samples. *)
Lemma filter_rgb_to_grayscale_rgb_image (h w : nat) (pxs : list (Z * Z * Z))
    (output_type : string) :
  pxs ≠ [] →
  returns (filter_rgb_to_grayscale (rgb_image h w pxs) output_type)
    (if negb (String.eqb output_type "float")
     then NdArray [h; w] (UInt8Buf ((λ px, wrap_uint8 (F2Z (luminance px))) <$> pxs))
     else NdArray [h; w] (Float64Buf (luminance <$> pxs))).
Proof.
  intros Hne. unfold filter_rgb_to_grayscale. rewrite dot_rgb_image.
  eapply bind_returns; [by apply returns_lift |].
  destruct (negb (String.eqb output_type "float")).
  - replace (astype_uint8 _)
      with (NdArray [h; w] (UInt8Buf ((λ px, wrap_uint8 (F2Z (luminance px))) <$> pxs))).
    + apply returns_report. split; [| reflexivity].
      apply size_of_nonempty. simpl. by destruct pxs.
    + unfold astype_uint8. simpl. do 2 f_equal.
      change (map ?f ?l) with (f <$> l). by rewrite <- !list_fmap_compose.
  - apply returns_report. split; [| reflexivity].
    apply size_of_nonempty. simpl. by destruct pxs.
Qed.

(** C5 as the specification states it fails in its example: the pixel
    (100, 150, 200) gives 142.98, not 135.395. *)
Lemma grayscale_example_counterexample :
  ∃ y, returns (filter_rgb_to_grayscale (rgb_image 1 1 [(100, 150, 200)]) "float")
         (NdArray [1; 1]%nat (Float64Buf [y]))
       ∧ y = 142.98%float
       ∧ PrimFloat.eqb y 135.395 = false.
Proof.
  eexists. split; [unfold returns; vm_compute; reflexivity |].
  split; vm_compute; reflexivity.
Qed.

(** C5, amended: the grayscale filter forms, for every pixel of an RGB
    image, the sum of its three channels weighted by 0.2125, 0.7154 and
    0.0721, accumulated from the red channel on with fused
    multiply-adds; "float" returns these sums, every other selector
    converts them to [uint8] by dropping the fraction (142.98 becomes
    142, not 143).  On the pixel (100, 150, 200) the sum is 142.98; on
    (55, 8, 133) it is just below 27 and the grey level is 26. *)
Theorem filter_rgb_to_grayscale_weighted_sum (h w : nat) (pxs : list (Z * Z * Z)) :
  pxs ≠ [] →
  (∀ r g b, luminance (r, g, b)
            = fma (Z2F b) 0.0721 (fma (Z2F g) 0.7154 (Z2F r * 0.2125)%float))
  ∧ returns (filter_rgb_to_grayscale (rgb_image h w pxs) "float")
      (NdArray [h; w] (Float64Buf (luminance <$> pxs)))
  ∧ (∀ output_type, output_type ≠ "float" →
       returns (filter_rgb_to_grayscale (rgb_image h w pxs) output_type)
         (NdArray [h; w] (UInt8Buf ((λ px, wrap_uint8 (F2Z (luminance px))) <$> pxs))))
  ∧ luminance (100, 150, 200) = 142.98%float
  ∧ wrap_uint8 (F2Z (luminance (100, 150, 200))) = 142
  ∧ luminance (55, 8, 133) = 26.999999999999996%float
  ∧ wrap_uint8 (F2Z (luminance (55, 8, 133))) = 26.
Proof.
  intros Hne. split; [reflexivity |]. split; [| split].
  - exact (filter_rgb_to_grayscale_rgb_image h w pxs "float" Hne).
  - intros t Ht. apply String.eqb_neq in Ht.
    pose proof (filter_rgb_to_grayscale_rgb_image h w pxs t Hne) as Hr.
    by rewrite Ht in Hr.
  - repeat split; vm_compute; reflexivity.
Qed.

Lemma filter_rgb_to_grayscale_weighted_sum_witness :
  returns (filter_rgb_to_grayscale (rgb_image 1 2 [(100, 150, 200); (0, 0, 255)]) "float")
    (NdArray [1; 2]%nat (Float64Buf [luminance (100, 150, 200); luminance (0, 0, 255)]))
  ∧ returns (filter_rgb_to_grayscale (rgb_image 1 2 [(100, 150, 200); (0, 0, 255)]) "uint8")
      (NdArray [1; 2]%nat (UInt8Buf [142; 18])).
Proof.
  assert (Hne : [(100, 150, 200); (0, 0, 255)] ≠ ([] : list (Z * Z * Z))) by discriminate.
  destruct (filter_rgb_to_grayscale_weighted_sum 1 2 _ Hne) as (_ & Hf & Hu & _).
  split; [exact Hf |].
  assert (Ht : "uint8" ≠ "float") by discriminate.
  exact (Hu "uint8" Ht).
Defined.

(** C6: the grayscale filter with "uint8" maps a uniform white RGB
    image, every pixel (255, 255, 255), to the image of the same height
    and width with 255 at every pixel. *)
Theorem filter_rgb_to_grayscale_white (h w : nat) :
  (h * w ≠ 0)%nat →
  returns (filter_rgb_to_grayscale (rgb_image h w (replicate (h * w) (255, 255, 255))) "uint8")
    (NdArray [h; w] (UInt8Buf (replicate (h * w) 255))).
Proof.
  intros Hne.
  pose proof (filter_rgb_to_grayscale_rgb_image h w
                (replicate (h * w) (255, 255, 255)) "uint8") as Hr.
  simpl negb in Hr. cbv iota in Hr. rewrite fmap_replicate in Hr.
  replace (wrap_uint8 (F2Z (luminance (255, 255, 255)))) with 255 in Hr
    by (vm_compute; reflexivity).
  apply Hr. by destruct (h * w)%nat.
Qed.

Lemma filter_rgb_to_grayscale_white_witness :
  returns (filter_rgb_to_grayscale (rgb_image 2 3 (replicate 6 (255, 255, 255))) "uint8")
    (NdArray [2; 3]%nat (UInt8Buf (replicate 6 255))).
Proof.
  apply (filter_rgb_to_grayscale_white 2 3). discriminate.
Defined.

(** *** Loading the module *)

Lemma bind_inr {A B} (m : M A) (k : A → M B) (log : list event) (y : B) :
  bind m k = (log, inr y) →
  ∃ log1 log2 x, m = (log1, inr x) ∧ k x = (log2, inr y) ∧ log = log1 ++ log2.
Proof.
  unfold bind. destruct m as [log1 [e | x]]; [discriminate |].
  destruct (k x) as [log2 r] eqn:E. intros [= <- ->]. by exists log1, log2, x.
Qed.

Lemma lift_inr {A} (r : exn + A) (log : list event) (x : A) :
  lift r = (log, inr x) → log = [] ∧ r = inr x.
Proof. destruct r; simpl; intros [= <- <-]; done. Qed.

Lemma report_inr (x r : ndarray) (name : string) (log : list event) :
  (np_info x name ;;; ret x) = (log, inr r) →
  log = [Printed name (dtype_of (data x)) (shape x)] ∧ r = x.
Proof.
  unfold np_info. destruct (size_of x =? 0)%nat; simpl; [discriminate |].
  by intros [= <- <-].
Qed.

Lemma load_filter_try `{Host} : load_global "filter_try" = raise (NameError "filter_try").
Proof. reflexivity. Qed.

(** C10: running the top level of the module never completes: it
    raises.  When the statements before the last one succeed (the
    thumbnail is opened, converted and displayed and its complement
    taken), what has been printed and shown is the "RGB" line, the
    "Gray" line, the grayscale image and the "Complement" line, and the
    last statement raises the NameError of [filter_try]. *)
Theorem module_toplevel_raises `{Host} :
  (∃ e, raises module_toplevel e)
  ∧ ∀ complement, returns module_prefix complement →
      raises module_toplevel (NameError "filter_try")
      ∧ ∃ rgb gray pil_img,
          returns (np_to_pil gray) pil_img ∧
          fst module_toplevel =
            [ Printed "RGB" (dtype_of (data rgb)) (shape rgb);
              Printed "Gray" uint8 (shape gray);
              Shown (asarray pil_img);
              Printed "Complement" (dtype_of (data complement)) (shape complement) ].
Proof.
  split.
  - unfold module_toplevel, raises, bind. rewrite load_filter_try.
    destruct module_prefix as [log [e | x]]; simpl; eauto.
  - intros complement Hc. unfold returns in Hc.
    destruct module_prefix as [log r] eqn:Hprefix. simpl in Hc. subst r.
    assert (Htop : module_toplevel = (log, inl (NameError "filter_try"))).
    { unfold module_toplevel. rewrite Hprefix, load_filter_try. simpl.
      by rewrite app_nil_r. }
    split; [by rewrite Htop |]. rewrite Htop. simpl.
    unfold module_prefix in Hprefix.
    apply bind_inr in Hprefix as (l1 & l1' & img_path & Hpath & Hprefix & ->).
    apply lift_inr in Hpath as [-> _].
    apply bind_inr in Hprefix as (l2 & l2' & img & Himg & Hprefix & ->).
    apply lift_inr in Himg as [-> _].
    apply bind_inr in Hprefix as (l3 & l3' & rgb & Hrgb & Hprefix & ->).
    apply report_inr in Hrgb as [-> ->].
    apply bind_inr in Hprefix as (l4 & l4' & gray & Hgray & Hprefix & ->).
    unfold filter_rgb_to_grayscale in Hgray.
    apply bind_inr in Hgray as (l5 & l5' & dot & Hdot & Hgray & ->).
    apply lift_inr in Hdot as [-> _]. simpl String.eqb in Hgray. simpl negb in Hgray.
    cbv iota in Hgray.
    apply report_inr in Hgray as [-> ->].
    apply bind_inr in Hprefix as (l6 & l6' & u & Hshow & Hcomp & ->).
    apply bind_inr in Hshow as (l7 & l7' & pil_img & Hpil & Hshow & ->).
    pose proof Hpil as Hpil'. apply lift_inr in Hpil as [-> _].
    unfold show_image in Hshow.
    apply bind_inr in Hshow as (l8 & l8' & u' & Hshown & Htell & ->).
    apply lift_inr in Hshown as [-> _]. injection Htell as <-.
    apply report_inr in Hcomp as [-> ->].
    exists (asarray img), (astype_uint8 dot), pil_img.
    split; [unfold returns; by rewrite Hpil' | reflexivity].
Qed.

Lemma module_toplevel_raises_witness :
  let complement := NdArray [1; 1]%nat (UInt8Buf [110]) in
  returns (module_prefix (H := example_host)) complement
  ∧ raises (module_toplevel (H := example_host)) (NameError "filter_try").
Proof.
  intros complement.
  assert (Hc : returns (module_prefix (H := example_host)) complement)
    by (vm_compute; reflexivity).
  split; [exact Hc |].
  exact (proj1 (proj2 (module_toplevel_raises (H := example_host)) complement Hc)).
Defined.

(** *** The window of the subtract-mean filter *)

Lemma bind_singleton_fmap {A B} (g : A → B) (l : list A) : (l ≫= λ x, [g x]) = g <$> l.
Proof. induction l as [| x l IH]; [done |]. rewrite bind_cons, fmap_cons, IH. done. Qed.

(** Reading a buffer of [rows] rows of width [w] position by position
    visits the rows in order and each row from left to right. *)
Lemma pixel_of_seq {A} (F : Z → Z → A) (rows w : nat) :
  (λ k, F (Sk.pixel_of w k).1 (Sk.pixel_of w k).2) <$> seq 0 (rows * w)
  = (i ← seq 0 rows; j ← seq 0 w; [F (Z.of_nat i) (Z.of_nat j)]).
Proof.
  induction rows as [| rows IH]; [done |].
  replace (S rows * w)%nat with (rows * w + w)%nat by lia.
  rewrite seq_app, fmap_app, IH, seq_S, bind_app. f_equal.
  simpl. rewrite app_nil_r, bind_singleton_fmap.
  replace (seq (rows * w) w) with (seq (rows * w + 0) w) by (f_equal; lia).
  rewrite <- (fmap_add_seq (rows * w) 0 w), <- list_fmap_compose.
  apply list_fmap_ext. intros _ j Hj%list_elem_of_lookup_2%elem_of_seq.
  unfold Sk.pixel_of. simpl.
  replace (Z.of_nat (rows * w + j)) with (Z.of_nat rows * Z.of_nat w + Z.of_nat j) by lia.
  f_equal.
  - rewrite Z.div_add_l by lia. rewrite Z.div_small by lia. lia.
  - rewrite Z.add_comm, Z.mod_add by lia. apply Z.mod_small. lia.
Qed.

Lemma is_set_replicate (w n k : nat) :
  (k < n)%nat → (0 < w)%nat → Sk.is_set w (replicate n true) (Sk.pixel_of w k) = true.
Proof.
  intros Hk Hw. unfold Sk.is_set, Sk.at2. apply bool_decide_eq_true.
  assert (Hrow : Sk.in_row w (Sk.pixel_of w k)).
  { unfold Sk.in_row, Sk.pixel_of. simpl. split.
    - apply Z.div_pos; lia.
    - apply Z.mod_pos_bound. lia. }
  rewrite bool_decide_eq_true_2 by done.
  replace (Z.to_nat _) with k.
  - by apply lookup_replicate_2.
  - unfold Sk.pixel_of. simpl.
    pose proof (Z.div_mod (Z.of_nat k) (Z.of_nat w)). lia.
Qed.

Lemma omap_Some_fmap {A B} (f : A → option B) (g : A → B) (l : list A) :
  (∀ x, x ∈ l → f x = Some (g x)) → omap f l = g <$> l.
Proof.
  induction l as [| x l IH]; intros Hf; [done |]. simpl.
  rewrite (Hf x) by left. simpl. f_equal. apply IH. intros y Hy. apply Hf. by right.
Qed.

(** The window [np.ones((n, n))] is the square of side [n]. *)
Lemma selem_offsets_ones (n : Z) (selem : ndarray) :
  np_ones n n = inr selem → Sk.selem_offsets selem = square_window n.
Proof.
  unfold np_ones. destruct (Z.ltb_spec n 0) as [| Hn]; [discriminate |].
  simpl. intros [= <-]. unfold Sk.selem_offsets, square_window. simpl shape. cbv iota.
  set (N := Z.to_nat n). simpl data. simpl values.
  replace ((λ v, gt v (SInt 0)) <$> map SFloat (repeat 1%float (N * N)))
    with (replicate (N * N) true).
  2:{ change (map ?f ?l) with (f <$> l). generalize (N * N)%nat. intros m.
      induction m as [| m IH]; [done |].
      change (true :: replicate m true
              = gt (SFloat 1) (SInt 0) :: ((λ v, gt v (SInt 0)) <$> (SFloat <$> repeat 1%float m))).
      f_equal. exact IH. }
  rewrite length_replicate.
  rewrite (omap_Some_fmap _
             (λ k, ((Sk.pixel_of N k).1 - Z.of_nat (N / 2),
                    (Sk.pixel_of N k).2 - Z.of_nat (N / 2)))).
  - rewrite (pixel_of_seq (λ i j, (i - Z.of_nat (N / 2), j - Z.of_nat (N / 2))) N N).
    replace (Z.of_nat (N / 2)) with (n / 2); [done |].
    unfold N. rewrite Nat2Z.inj_div, Z2Nat.id by lia. done.
  - intros k Hk%elem_of_seq. rewrite is_set_replicate; [done | lia | nia].
Qed.

(** *** The subtract-mean filter *)

Lemma np_ones_nonneg (n : Z) :
  0 ≤ n →
  np_ones n n = inr (NdArray [Z.to_nat n; Z.to_nat n]
                       (Float64Buf (repeat 1%float (Z.to_nat n * Z.to_nat n)))).
Proof.
  intros Hn. unfold np_ones. by destruct (Z.ltb_spec n 0); [lia |].
Qed.

Lemma same_shape_refl_data (sh : list nat) (b1 b2 : buffer) :
  length (values b1) = length (values b2) →
  same_shape (NdArray sh b1) (NdArray sh b2) = true.
Proof.
  intros Hlen. unfold same_shape, size_of. simpl.
  rewrite bool_decide_eq_true_2 by reflexivity. simpl. by apply Nat.eqb_eq.
Qed.

(** C8 as the specification states it fails: on the one-pixel image of
    grey level 200, with a window of side 1, the filter sets the pixel
    although 200 does not exceed the mean of its window, which is 200. *)
Lemma filter_subtract_mean_counterexample :
  let px := [200] in
  ∃ r,
    returns (filter_subtract_mean (H := Sk.reference)
               (NdArray [1; 1]%nat (UInt8Buf px)) 1 "bool") r
    ∧ flat r 0 = Some (SBool true)
    ∧ exceeds_local_mean 1 px (square_window 1) 0 200 = false.
Proof.
  eexists. split; [unfold returns; vm_compute; reflexivity |].
  split; vm_compute; reflexivity.
Qed.

(** At [neigh = 0] the window [np.ones((0, 0))] has no centre: the
    rank filter fails its assertion and the filter raises. *)
Lemma filter_subtract_mean_empty_window (h w : nat) (px : list Z) (output_type : string) :
  filter_subtract_mean (H := Sk.reference) (NdArray [h; w] (UInt8Buf px)) 0 output_type
  = raise AssertionError.
Proof. reflexivity. Qed.

(** C8, amended: on a [uint8] image the subtract-mean filter applies the
    rank filter [subtract_mean] over the square window of side [neigh],
    at least 1, and its output before the choice of the representation sets a pixel
    iff the original value strictly exceeds the value of the rank filter
    at that pixel.  That value is not the local mean: it is half the
    difference between the pixel and the mean of the grey levels under
    the window, plus 127, without its fraction. *)
Theorem filter_subtract_mean_compares_with_rank_filter (h w : nat) (px : list Z) (neigh : Z) :
  px ≠ [] → 0 < neigh →
  ∃ r,
    returns (filter_subtract_mean (H := Sk.reference)
               (NdArray [h; w] (UInt8Buf px)) neigh "bool") r
    ∧ shape r = [h; w]
    ∧ (∀ k g, px !! k = Some g →
         let nb := Sk.neighbourhood w px (square_window neigh) (Sk.pixel_of w k) in
         flat r k = Some (SBool (Sk.kernel_subtract_mean nb g <? g)))
    ∧ (∀ nb g, nb ≠ [] →
         Sk.kernel_subtract_mean nb g
         = wrap_uint8 (F2Z ((Z2F g - Z2F (foldr Z.add 0%Z nb) / Z2F (Z.of_nat (length nb))) / 2
                            + 127)%float)).
Proof.
  intros Hne Hneigh.
  set (filtered := imap (λ k g,
         Sk.kernel_subtract_mean
           (Sk.neighbourhood w px (square_window neigh) (Sk.pixel_of w k)) g) px).
  set (m := Mask [h; w] (zip_with gt (SInt <$> px) (SInt <$> filtered))).
  exists (of_mask m).
  split; [| split; [reflexivity | split]].
  - unfold filter_subtract_mean.
    pose proof (np_ones_nonneg neigh ltac:(lia)) as Hones. rewrite Hones.
    eapply bind_returns; [by apply returns_lift |].
    eapply bind_returns.
    { apply returns_lift. simpl. unfold Sk.rank_subtract_mean. simpl.
      destruct (Nat.eqb_spec (Z.to_nat neigh) 0) as [Hz | _]; [lia |]. simpl.
      rewrite (selem_offsets_ones neigh _ Hones). reflexivity. }
    eapply bind_returns.
    + apply returns_lift. unfold compare_arrays.
      rewrite same_shape_refl_data; [reflexivity |].
      simpl. by rewrite !length_map, length_imap.
    + apply returns_report. split; [| reflexivity].
      apply size_of_nonempty. simpl. unfold zip_cmp. simpl.
      destruct px as [| g px]; [done |]. discriminate.
  - intros k g Hg nb. rewrite flat_of_mask. simpl.
    rewrite lookup_zip_with, !list_lookup_fmap, Hg. unfold filtered.
    rewrite list_lookup_imap, Hg. reflexivity.
  - intros nb g Hnb. unfold Sk.kernel_subtract_mean.
    destruct nb; [done |]. reflexivity.
Qed.

Lemma filter_subtract_mean_compares_with_rank_filter_witness :
  ∃ r,
    returns (filter_subtract_mean (H := Sk.reference)
               (NdArray [2; 3]%nat (UInt8Buf [200; 10; 30; 40; 50; 255])) 3 "bool") r
    ∧ flat r 0 = Some (SBool (189 <? 200)).
Proof.
  assert (Hne : [200; 10; 30; 40; 50; 255] ≠ []) by discriminate.
  assert (Hneigh : 0 < 3) by lia.
  destruct (filter_subtract_mean_compares_with_rank_filter 2 3 _ 3 Hne Hneigh)
    as (r & Hr & _ & Hk & _).
  exists r. split; [exact Hr |].
  rewrite (Hk 0%nat 200 eq_refl). vm_compute. reflexivity.
Defined.

(** *** Flood fill computes connected components *)

Section FloodFill.

Variable fg : Sk.pixel → bool.
Variable connectivity : Z.

(** A finite set that holds the foreground. *)
Variable universe : gset Sk.pixel.
Hypothesis fg_universe : ∀ p, fg p = true → p ∈ universe.

Abbreviation grow := (Sk.grow fg connectivity).
Abbreviation flood := (Sk.flood fg connectivity).
Abbreviation connected := (connected fg connectivity).

Lemma elem_of_grow (s : gset Sk.pixel) (r : Sk.pixel) :
  r ∈ grow s ↔
  r ∈ s ∨ (fg r = true ∧ ∃ q, q ∈ s ∧ r ∈ Sk.neighbours connectivity q).
Proof.
  unfold Sk.grow.
  rewrite elem_of_union, elem_of_list_to_set, list_elem_of_filter, list_elem_of_bind.
  setoid_rewrite elem_of_elements.
  split; (intros [Hr | (Hfg & q & H1 & H2)]; [by left | right; eauto]).
Qed.

Lemma grow_subseteq (s : gset Sk.pixel) : s ⊆ grow s.
Proof. intros q Hq. apply elem_of_grow. by left. Qed.

Lemma grow_universe (s : gset Sk.pixel) : s ⊆ universe → grow s ⊆ universe.
Proof.
  intros Hs r [Hr | [Hr _]]%elem_of_grow; [by apply Hs | by apply fg_universe].
Qed.

Lemma grow_sound (p : Sk.pixel) (s : gset Sk.pixel) :
  (∀ q, q ∈ s → connected p q) → ∀ q, q ∈ grow s → connected p q.
Proof.
  intros Hs r [Hr | (Hfg & q & Hq & Hn)]%elem_of_grow; [by apply Hs |].
  eapply connected_step; eauto.
Qed.

Lemma flood_sound (p : Sk.pixel) (n : nat) (s : gset Sk.pixel) :
  (∀ q, q ∈ s → connected p q) → ∀ q, q ∈ flood n s → connected p q.
Proof.
  revert s. induction n as [| n IH]; intros s Hs; simpl; [done |].
  by apply IH, grow_sound.
Qed.

Lemma flood_universe (n : nat) (s : gset Sk.pixel) :
  s ⊆ universe → flood n s ⊆ universe.
Proof.
  revert s. induction n as [| n IH]; intros s Hs; simpl; [done |].
  by apply IH, grow_universe.
Qed.

Lemma flood_subseteq (n : nat) (s : gset Sk.pixel) : s ⊆ flood n s.
Proof.
  revert s. induction n as [| n IH]; intros s; simpl; [done |].
  etrans; [apply grow_subseteq | apply IH].
Qed.

Lemma flood_stable (n : nat) (s : gset Sk.pixel) : grow s = s → flood n s = s.
Proof. intros Hs. induction n as [| n IH]; simpl; [done |]. by rewrite Hs. Qed.

(** Each round either changes nothing any more or adds a pixel. *)
Lemma flood_progress (n : nat) (s : gset Sk.pixel) :
  grow (flood n s) = flood n s ∨ (size s + n ≤ size (flood n s))%nat.
Proof.
  revert s. induction n as [| n IH]; intros s; simpl.
  - right. lia.
  - destruct (decide (grow s = s)) as [Heq | Hneq].
    + left. by rewrite Heq, flood_stable.
    + destruct (IH (grow s)) as [Hfix | Hsize]; [by left | right].
      assert (size s < size (grow s))%nat; [| lia].
      apply subset_size. split; [apply grow_subseteq |].
      intros Hsub. apply Hneq. apply set_eq. intros q. split; [apply Hsub | apply grow_subseteq].
Qed.

Lemma flood_fixpoint (n : nat) (s : gset Sk.pixel) :
  s ⊆ universe → (size universe < size s + n)%nat →
  grow (flood n s) = flood n s.
Proof.
  intros Hs Hn. destruct (flood_progress n s) as [Hfix | Hsize]; [done |].
  pose proof (subseteq_size _ _ (flood_universe n s Hs)). lia.
Qed.

Lemma closed_complete (p : Sk.pixel) (s : gset Sk.pixel) :
  grow s = s → p ∈ s → ∀ q, connected p q → q ∈ s.
Proof.
  intros Hfix Hp q Hq. induction Hq as [| q r _ IH Hn Hfg]; [done |].
  rewrite <- Hfix. apply elem_of_grow. right. eauto.
Qed.

Lemma connected_fg_source (p q : Sk.pixel) : connected p q → fg p = true.
Proof. induction 1; auto. Qed.

(** The set flood fill computes from a pixel is its connected
    component. *)
Lemma component_connected (n : nat) (p q : Sk.pixel) :
  (size universe ≤ n)%nat →
  q ∈ Sk.component fg connectivity n p ↔ connected p q.
Proof.
  intros Hn. unfold Sk.component. destruct (fg p) eqn:Hp.
  - split.
    + apply flood_sound. intros r ->%elem_of_singleton. by apply connected_refl.
    + apply closed_complete.
      * apply flood_fixpoint.
        -- apply singleton_subseteq_l. by apply fg_universe.
        -- rewrite size_singleton. lia.
      * apply flood_subseteq. by apply elem_of_singleton.
  - split; [by intros ?%not_elem_of_empty |].
    intros Hc%connected_fg_source. congruence.
Qed.

End FloodFill.

(** *** Removing small objects *)

Lemma pixel_of_index (w : nat) (p : Sk.pixel) :
  Sk.in_row w p → Sk.pixel_of w (Z.to_nat (p.1 * Z.of_nat w + p.2)) = p.
Proof.
  destruct p as [i j]. unfold Sk.in_row, Sk.pixel_of. simpl. intros [Hi Hj].
  rewrite Z2Nat.id by nia. f_equal.
  - rewrite Z.div_add_l by lia. rewrite Z.div_small by lia. lia.
  - rewrite Z.add_comm, Z.mod_add by lia. by apply Z.mod_small.
Qed.

Lemma is_set_pixels_of (w : nat) (bits : list bool) (p : Sk.pixel) :
  Sk.is_set w bits p = true → p ∈ pixels_of w bits.
Proof.
  unfold Sk.is_set, Sk.at2. intros Hp%bool_decide_eq_true.
  destruct (bool_decide (Sk.in_row w p)) eqn:Hrow; [| discriminate].
  apply bool_decide_eq_true in Hrow.
  apply elem_of_list_to_set, list_elem_of_fmap.
  exists (Z.to_nat (p.1 * Z.of_nat w + p.2)). split; [by rewrite pixel_of_index |].
  apply elem_of_seq. apply lookup_lt_Some in Hp. lia.
Qed.

Lemma size_pixels_of (w : nat) (bits : list bool) : (size (pixels_of w bits) ≤ length bits)%nat.
Proof.
  unfold pixels_of, size, set_size. simpl.
  set (l := Sk.pixel_of w <$> seq 0 (length bits)).
  replace (length bits) with (length l) by (unfold l; by rewrite length_fmap, length_seq).
  apply submseteq_length, NoDup_submseteq; [apply NoDup_elements |].
  intros x Hx. apply elem_of_elements in Hx. by apply elem_of_list_to_set in Hx.
Qed.

(** The objects of a boolean image of width [w]. *)
Lemma object_connected (w : nat) (bits : list bool) (connectivity : Z) (p q : Sk.pixel) :
  q ∈ Sk.component (Sk.is_set w bits) connectivity (length bits) p
  ↔ connected (Sk.is_set w bits) connectivity p q.
Proof.
  apply component_connected with (universe := pixels_of w bits).
  - apply is_set_pixels_of.
  - apply size_pixels_of.
Qed.

Lemma remove_small_objects_lookup (ar : mask) (h w : nat) (min_size connectivity : Z) :
  mshape ar = [h; w] →
  ∃ out, Sk.remove_small_objects ar min_size connectivity = inr out
    ∧ mshape out = mshape ar
    ∧ length (bits out) = length (bits ar)
    ∧ ∀ k b, bits ar !! k = Some b →
        let obj := Sk.component (Sk.is_set w (bits ar)) connectivity (length (bits ar))
                     (Sk.pixel_of w k) in
        bits out !! k = Some (b && (min_size <=? Z.of_nat (size obj))).
Proof.
  intros Hsh. unfold Sk.remove_small_objects. rewrite Hsh.
  destruct (Z.eqb_spec min_size 0) as [-> | Hmin].
  - exists ar. split; [reflexivity |]. split; [done |]. split; [done |].
    intros k b Hb. rewrite Hb.
    rewrite (proj2 (Z.leb_le 0 _)) by lia. by rewrite andb_true_r.
  - eexists. split; [reflexivity |]. simpl. split; [done |].
    split; [by rewrite length_imap |].
    intros k b Hb. rewrite list_lookup_imap, Hb. simpl.
    by rewrite Z.leb_antisym.
Qed.




(** *** Examples *)

(** The example of the documentation of [remove_small_objects]. *)
Example remove_small_objects_doc :
  let a := Mask [3; 5]%nat
             [ false; false; false; true; false;
               true; true; true; false; false;
               true; true; true; false; true ] in
  Sk.remove_small_objects a 6 1
  = inr (Mask [3; 5]%nat
           [ false; false; false; false; false;
             true; true; true; false; false;
             true; true; true; false; false ])
  ∧ Sk.remove_small_objects a 7 2
    = inr (Mask [3; 5]%nat
             [ false; false; false; true; false;
               true; true; true; false; false;
               true; true; true; false; false ]).
Proof. split; vm_compute; reflexivity. Qed.

Example disk_1 : disk 1 = NdArray [3; 3]%nat (UInt8Buf [0; 1; 0; 1; 1; 1; 0; 1; 0]).
Proof. reflexivity. Qed.

Example filter_complement_128 :
  filter_complement (NdArray [2; 2]%nat (UInt8Buf [128; 128; 128; 128])) "uint8"
  = ([Printed "Complement" uint8 [2; 2]%nat],
     inr (NdArray [2; 2]%nat (UInt8Buf [127; 127; 127; 127]))).
Proof. reflexivity. Qed.

(** Half the difference to the local mean, plus 127: the pixel 200 among
    200, 10, 40 and 50 (mean 75) gives 189. *)
Example rank_subtract_mean_corner :
  Sk.kernel_subtract_mean [200; 10; 40; 50] 200 = 189
  ∧ Sk.neighbourhood 3 [200; 10; 30; 40; 50; 255] (square_window 3) (0, 0)
    = [200; 10; 40; 50].
Proof. split; vm_compute; reflexivity. Qed.

(** Hysteresis: 60 is kept next to 200 and dropped on its own. *)
Example apply_hysteresis_threshold_example :
  Sk.apply_hysteresis_threshold
    (NdArray [2; 3]%nat (UInt8Buf [200; 60; 0; 0; 0; 60])) (SInt 50) (SInt 100)
  = inr (Mask [2; 3]%nat [true; true; false; false; false; false]).
Proof. vm_compute. reflexivity. Qed.

(** Broadcasting: a column against a row gives a table; the extents 2
    and 3 do not go together. *)
Example compare_arrays_broadcasts :
  compare_arrays gt (NdArray [2; 1]%nat (UInt8Buf [5; 1])) (NdArray [3]%nat (UInt8Buf [0; 3; 9]))
  = inr (Mask [2; 3]%nat [true; true; false; true; false; false])
  ∧ compare_arrays gt (NdArray [2; 2]%nat (UInt8Buf [5; 1; 7; 2]))
      (NdArray [3]%nat (UInt8Buf [0; 1; 2]))
    = inl (ValueError "operands could not be broadcast together").
Proof. split; vm_compute; reflexivity. Qed.

(** One rounding instead of two: [0.1 * 10 - 1] is 0 when the product
    is rounded first, and 2 ^ -54 when it is not. *)
Example fma_rounds_once :
  fma 0.1 10 (-1) = 5.5511151231257827e-17%float
  ∧ (0.1 * 10 + -1)%float = 0%float.
Proof. split; vm_compute; reflexivity. Qed.

(** ** Further properties *)

(** *** What a call prints *)

Lemma one_line_report (x : ndarray) (name : string) :
  one_line name (np_info x name ;;; ret x).
Proof.
  unfold one_line, np_info. destruct (Nat.eqb_spec (size_of x) 0); simpl; [done |].
  by split.
Qed.

Lemma one_line_bind_lift {A} (r : exn + A) (k : A → M ndarray) (name : string) :
  (∀ x, one_line name (k x)) → one_line name (bind (lift r) k).
Proof.
  intros Hk. destruct r as [e | x]; simpl; [done |].
  specialize (Hk x). unfold one_line in *. by destruct (k x) as [log [e | y]].
Qed.

Ltac one_line_steps :=
  cbv zeta;
  repeat (apply one_line_bind_lift; intros ?; cbv zeta);
  try apply one_line_report.

Lemma run_transform_one_line `{SkImage} (f : transform) (np_img : ndarray)
    (output_type : string) :
  one_line (label (Call f output_type)) (run_transform f np_img output_type).
Proof.
  destruct f as [ | | [] | | | | | | ]; simpl;
    unfold filter_rgb_to_grayscale, filter_complement, filter_hysteresis_threshold,
      filter_otsu_threshold, filter_local_otsu_threshold, filter_entropy, filter_canny,
      filter_remove_small_objects, filter_histogram_equalization,
      filter_adaptive_equalization, filter_autolevel, filter_subtract_mean, filter_modal;
    one_line_steps.
Qed.

(** X1: each of the fifteen filters prints exactly one line when it
    returns, with its own label and the element type and shape of the
    array it returns, and that array is never empty; when it raises
    it has printed nothing. *)
Theorem filters_print_one_line `{SkImage} `{Contrast} (c : filter_call) (np_img : ndarray) :
  one_line (label c) (run_call c np_img).
Proof.
  destruct c as [f t | low high | disk_size]; simpl.
  - apply run_transform_one_line.
  - unfold filter_contrast_stretch. apply one_line_bind_lift. intros [low_p high_p].
    one_line_steps.
  - unfold filter_local_equalization. one_line_steps.
Qed.

(** *** The selector chooses an encoding, never the decision *)

Lemma astype_float_encode (m : mask) :
  astype_float (of_mask m) = NdArray (mshape m) (Float64Buf (b2f <$> bits m)).
Proof.
  unfold astype_float. simpl. do 2 f_equal. rewrite map_map. reflexivity.
Qed.

Lemma times_then_uint8_encode (m : mask) :
  astype_uint8 (int_times 255 (of_mask m))
  = NdArray (mshape m) (UInt8Buf ((λ b : bool, if b then 255 else 0) <$> bits m)).
Proof.
  unfold astype_uint8. simpl. do 2 f_equal. rewrite !map_map.
  apply map_ext. by intros [].
Qed.

Lemma uint8_then_times_encode (m : mask) :
  int_times 255 (astype_uint8 (of_mask m))
  = NdArray (mshape m) (UInt8Buf ((λ b : bool, if b then 255 else 0) <$> bits m)).
Proof.
  unfold int_times. simpl. do 2 f_equal. rewrite !map_map.
  apply map_ext. by intros [].
Qed.

Lemma select_encode (t : string) (m : mask) (u : ndarray) :
  u = NdArray (mshape m) (UInt8Buf ((λ b : bool, if b then 255 else 0) <$> bits m)) →
  (if String.eqb t "bool" then of_mask m
   else if String.eqb t "float" then astype_float (of_mask m)
   else u) = encode t (mshape m) (bits m).
Proof.
  intros ->. unfold encode. by rewrite astype_float_encode.
Qed.

Lemma size_of_encode (t : string) (sh : list nat) (l : list bool) :
  size_of (encode t sh l) = length l.
Proof.
  unfold encode, size_of.
  destruct (String.eqb t "bool"), (String.eqb t "float"); simpl;
    by rewrite length_map, ?length_fmap.
Qed.

Lemma encodes_finish (name : string) (m : mask) (u : ndarray) :
  u = NdArray (mshape m) (UInt8Buf ((λ b : bool, if b then 255 else 0) <$> bits m)) →
  encodes (λ t,
    np_info (if String.eqb t "bool" then of_mask m
             else if String.eqb t "float" then astype_float (of_mask m)
             else u) name ;;;
    ret (if String.eqb t "bool" then of_mask m
         else if String.eqb t "float" then astype_float (of_mask m)
         else u)).
Proof.
  intros Hu t r Hr. rewrite (select_encode t m u Hu) in Hr.
  apply returns_report in Hr as [Hne _]. rewrite size_of_encode in Hne.
  exists (mshape m), (bits m). split; [by destruct (bits m) |].
  intros t'. rewrite (select_encode t' m u Hu).
  apply returns_report. by rewrite size_of_encode.
Qed.

Lemma encodes_bind_lift {A} (a : exn + A) (K : A → string → M ndarray) :
  (∀ x, encodes (K x)) → encodes (λ t, bind (lift a) (λ x, K x t)).
Proof.
  intros HK t r Hr. apply returns_bind in Hr as (x & Hx & Hr).
  destruct (HK x t r Hr) as (sh & l & Hl & Hall).
  exists sh, l. split; [exact Hl |]. intros t'. by eapply bind_returns.
Qed.

Lemma returns_inj {A} (m : M A) (x y : A) : returns m x → returns m y → x = y.
Proof. unfold returns. congruence. Qed.

Ltac encodes_steps :=
  cbv zeta;
  repeat (apply (encodes_bind_lift _ (λ x t, _)); intros ?; cbv beta zeta);
  apply encodes_finish;
  auto using times_then_uint8_encode, uint8_then_times_encode.

Lemma run_transform_encodes `{SkImage} (f : transform) (np_img : ndarray) :
  is_mask_transform f = true → encodes (λ t, run_transform f np_img t).
Proof.
  intros Hf. destruct f as [ | | [] | | | | | | ]; try discriminate; simpl;
    unfold filter_hysteresis_threshold, filter_otsu_threshold,
      filter_local_otsu_threshold, filter_entropy, filter_canny,
      filter_remove_small_objects, filter_autolevel, filter_subtract_mean;
    encodes_steps.
Qed.

(** X2: in the eight filters that end with the choice of a
    representation (the threshold family, remove-small-objects,
    autolevel and subtract-mean) the selector never changes the
    decision: if the filter returns for one selector it returns for
    every selector, and the results encode one and the same boolean
    array, as booleans for "bool", as 1.0 and 0.0 for "float" and as 255
    and 0 for every other selector. *)
Theorem selector_chooses_encoding `{SkImage} (f : transform) (np_img : ndarray)
    (output_type : string) (r : ndarray) :
  is_mask_transform f = true →
  returns (run_transform f np_img output_type) r →
  ∃ sh l, l ≠ [] ∧ r = encode output_type sh l
          ∧ ∀ t, returns (run_transform f np_img t) (encode t sh l).
Proof.
  intros Hf Hr.
  destruct (run_transform_encodes f np_img Hf output_type r Hr) as (sh & l & Hl & Hall).
  exists sh, l. split; [exact Hl |]. split; [| exact Hall].
  exact (returns_inj _ _ _ Hr (Hall output_type)).
Qed.

Lemma selector_chooses_encoding_witness :
  let np_img := NdArray [2; 2]%nat (UInt8Buf [200; 0; 0; 7]) in
  returns (run_transform (H := Sk.reference) (RemoveSmallObjects 1) np_img "float")
    (encode "float" [2; 2]%nat [true; false; false; true])
  ∧ returns (run_transform (H := Sk.reference) (RemoveSmallObjects 1) np_img "uint8")
      (NdArray [2; 2]%nat (UInt8Buf [255; 0; 0; 255])).
Proof.
  intros np_img.
  assert (Hr : returns (run_transform (H := Sk.reference) (RemoveSmallObjects 1) np_img "float")
                 (encode "float" [2; 2]%nat [true; false; false; true]))
    by (vm_compute; reflexivity).
  split; [exact Hr |].
  destruct (selector_chooses_encoding (H := Sk.reference) (RemoveSmallObjects 1) np_img
              "float" _ eq_refl Hr) as (sh & l & _ & Heq & Hall).
  injection Heq as <- Hl.
  assert (l = [true; false; false; true]) as ->.
  { clear -Hl. do 4 (destruct l as [| [] l]; try discriminate). by destruct l. }
  exact (Hall "uint8").
Defined.

(** *** Shape, size and element type of the result *)

Lemma shape_encode (t : string) (sh : list nat) (l : list bool) : shape (encode t sh l) = sh.
Proof.
  unfold encode. by destruct (String.eqb t "bool"), (String.eqb t "float").
Qed.

Lemma compare_arrays_mask cmp (a b : ndarray) (m : mask) :
  compare_arrays cmp a b = inr m → same_shape a b = true →
  mshape m = shape a ∧ length (bits m) = size_of a.
Proof.
  intros Hm Hshape. rewrite (compare_arrays_same_shape cmp a b Hshape) in Hm.
  injection Hm as <-. destruct (same_shape_size a b Hshape) as [_ Hsz]. simpl.
  split; [reflexivity |]. unfold zip_cmp, size_of in *. rewrite length_zip_with. lia.
Qed.

Lemma stretch_nil {A} (sa sh : list nat) : stretch sa sh ([] : list A) = [].
Proof.
  revert sh. induction sa as [| da sa IH]; intros [| d sh]; simpl; try reflexivity.
  destruct (da =? d)%nat.
  - by destruct da.
  - rewrite IH. clear. by induction d.
Qed.

(** Broadcasting never fills an array without elements. *)
Lemma compare_arrays_empty cmp (a b : ndarray) (m : mask) :
  compare_arrays cmp a b = inr m → size_of a = 0%nat → bits m = [].
Proof.
  unfold compare_arrays, size_of. intros Hm Hempty.
  apply nil_length_inv in Hempty.
  destruct (same_shape a b).
  - injection Hm as <-. simpl. unfold zip_cmp. by rewrite Hempty.
  - destruct (broadcast_shapes (shape a) (shape b)) as [sh |]; [| discriminate].
    injection Hm as <-. simpl. unfold broadcast_to. by rewrite Hempty, stretch_nil.
Qed.

Lemma gt_number_mask (a : ndarray) (c : scalar) :
  mshape (gt_number a c) = shape a ∧ length (bits (gt_number a c)) = size_of a.
Proof. unfold size_of. simpl. by rewrite length_map. Qed.

Lemma filter_complement_returns (np_img : ndarray) (output_type : string) (r : ndarray) :
  returns (filter_complement np_img output_type) r →
  shape r = shape np_img ∧ size_of r = size_of np_img ∧ size_of np_img ≠ 0%nat
  ∧ dtype_of (data r) = complement_dtype output_type (dtype_of (data np_img)).
Proof.
  unfold filter_complement, complement_dtype. cbv zeta.
  intros [Hne ->]%returns_report. revert Hne.
  destruct (String.eqb output_type "float"); unfold size_of;
    destruct np_img as [sh []]; simpl; rewrite ?length_map; auto.
Qed.

(** Strips the library calls of a filter and keeps what [np_info]
    checked. *)
Ltac open_calls H Hne :=
  cbv zeta in H;
  repeat match type of H with
    | returns (bind (lift _) _) _ =>
        let x := fresh "x" in
        let Hx := fresh "Hx" in
        apply returns_bind in H as (x & Hx & H);
        apply (proj1 (returns_lift _ _)) in Hx; cbv zeta in H
    end;
  apply (proj1 (returns_report _ _ _)) in H as [Hne ->].

Lemma pointwise_nonempty `{SkImage} (f : transform) (np_img : ndarray)
    (output_type : string) (r : ndarray) :
  is_pointwise f = true →
  returns (run_transform f np_img output_type) r → size_of np_img ≠ 0%nat.
Proof.
  intros Hf Hr Hempty.
  destruct f as [ | | [] | | | | | | ]; try discriminate; simpl in Hr.
  - apply filter_complement_returns in Hr. tauto.
  - unfold filter_otsu_threshold in Hr. open_calls Hr Hne.
    rewrite select_encode in * by apply uint8_then_times_encode.
    rewrite size_of_encode in *.
    destruct (gt_number_mask np_img x) as [_ Hlen]. congruence.
  - unfold filter_local_otsu_threshold in Hr. open_calls Hr Hne.
    rewrite select_encode in * by apply uint8_then_times_encode.
    rewrite size_of_encode in *.
    by rewrite (compare_arrays_empty _ _ _ _ Hx0 Hempty) in Hne.
  - unfold filter_autolevel in Hr. open_calls Hr Hne.
    rewrite select_encode in * by apply uint8_then_times_encode.
    rewrite size_of_encode in *.
    by rewrite (compare_arrays_empty _ _ _ _ Hx0 Hempty) in Hne.
  - unfold filter_subtract_mean in Hr. open_calls Hr Hne.
    rewrite select_encode in * by apply uint8_then_times_encode.
    rewrite size_of_encode in *.
    by rewrite (compare_arrays_empty _ _ _ _ Hx1 Hempty) in Hne.
Qed.

Lemma pointwise_shape `{SkImage} (f : transform) (np_img : ndarray)
    (output_type : string) (r : ndarray) :
  is_pointwise f = true →
  returns (run_transform f np_img output_type) r →
  (∀ t, compared_with f np_img = Some (inr t) → same_shape np_img t = true) →
  shape r = shape np_img ∧ size_of r = size_of np_img.
Proof.
  intros Hf Hr Hlib.
  destruct f as [ | | [] | | | | | | ]; try discriminate; simpl in Hr, Hlib.
  - apply filter_complement_returns in Hr. tauto.
  - unfold filter_otsu_threshold in Hr. open_calls Hr Hne.
    rewrite select_encode in * by apply uint8_then_times_encode.
    rewrite shape_encode, size_of_encode in *.
    by destruct (gt_number_mask np_img x) as [-> ->].
  - unfold filter_local_otsu_threshold in Hr. open_calls Hr Hne.
    rewrite select_encode in * by apply uint8_then_times_encode.
    rewrite shape_encode, size_of_encode in *.
    apply (compare_arrays_mask _ _ _ _ Hx0). apply Hlib. by rewrite Hx.
  - unfold filter_autolevel in Hr. open_calls Hr Hne.
    rewrite select_encode in * by apply uint8_then_times_encode.
    rewrite shape_encode, size_of_encode in *.
    apply (compare_arrays_mask _ _ _ _ Hx0). apply Hlib. by rewrite Hx.
  - unfold filter_subtract_mean in Hr. open_calls Hr Hne.
    rewrite select_encode in * by apply uint8_then_times_encode.
    rewrite shape_encode, size_of_encode in *.
    apply (compare_arrays_mask _ _ _ _ Hx1). apply Hlib. by rewrite Hx, Hx0.
Qed.

(** X3: the complement and the global Otsu filter compute their result
    element by element from the image: whatever the library returns, an
    array they return has the shape and the number of elements of the
    image.  So do the local Otsu, autolevel and subtract-mean filters
    when the array the rank filter of the library returns has the shape
    of the image (NumPy broadcasts the comparison otherwise).  As
    broadcasting never fills an empty array and [np_info] raises on an
    array without elements, all five raise on every image without
    elements. *)
Theorem pointwise_filters_keep_shape `{SkImage} (f : transform) (np_img : ndarray)
    (output_type : string) :
  is_pointwise f = true →
  (∀ r, returns (run_transform f np_img output_type) r →
        (∀ t, compared_with f np_img = Some (inr t) → same_shape np_img t = true) →
        shape r = shape np_img ∧ size_of r = size_of np_img)
  ∧ (size_of np_img = 0%nat → ∃ e, raises (run_transform f np_img output_type) e).
Proof.
  intros Hf. split.
  - intros r Hr Hlib. by apply (pointwise_shape f np_img output_type).
  - intros Hempty.
    destruct (run_transform f np_img output_type) as [log [e | r]] eqn:Hrun.
    + by exists e.
    + destruct (pointwise_nonempty f np_img output_type r Hf); [| exact Hempty].
      unfold returns. by rewrite Hrun.
Qed.

Lemma pointwise_filters_keep_shape_witness :
  (∃ e, raises (run_transform (H := example_sk) (Threshold (LocalOtsu 3))
                  (NdArray [0; 4]%nat (UInt8Buf [])) "uint8") e)
  ∧ ∀ r, returns (run_transform (H := example_sk) (Threshold (LocalOtsu 3))
                    (NdArray [1; 2]%nat (UInt8Buf [100; 200])) "float") r →
         shape r = [1; 2]%nat ∧ size_of r = 2%nat.
Proof.
  split.
  - exact (proj2 (pointwise_filters_keep_shape (H := example_sk) (Threshold (LocalOtsu 3))
                    (NdArray [0; 4]%nat (UInt8Buf [])) "uint8" eq_refl) eq_refl).
  - intros r Hr.
    apply (proj1 (pointwise_filters_keep_shape (H := example_sk) (Threshold (LocalOtsu 3))
                    (NdArray [1; 2]%nat (UInt8Buf [100; 200])) "float" eq_refl) r Hr).
    by intros t [= <-].
Defined.

(** *** The complement and the selector *)

(** X4: the selector of the complement names the arithmetic, not the
    element type of the result.  With "float" the result is always
    [float64]; with any other selector a [uint8], [int64] or [float64]
    image keeps its element type and a [bool] image becomes [int64]:
    the complement of a boolean mask holds 254 where the mask is set
    and 255 where it is clear. *)
Theorem filter_complement_element_type (np_img : ndarray) (output_type : string)
    (r : ndarray) :
  returns (filter_complement np_img output_type) r →
  dtype_of (data r) = complement_dtype output_type (dtype_of (data np_img))
  ∧ (output_type ≠ "float" →
     ∀ k b, flat np_img k = Some (SBool b) →
            flat r k = Some (SInt (if b then 254 else 255))).
Proof.
  intros Hr. split; [pose proof (filter_complement_returns _ _ _ Hr); tauto |].
  intros Ht%String.eqb_neq k b Hk.
  unfold filter_complement in Hr. cbv zeta in Hr. rewrite Ht in Hr.
  apply returns_report in Hr as [_ ->].
  unfold flat in *. destruct np_img as [sh [l | l | l | l]]; simpl in *;
    change (map ?f ?l) with (f <$> l) in *; rewrite ?list_lookup_fmap in *;
    destruct (l !! k) as [v |]; try discriminate; simpl in *.
  injection Hk as ->. by destruct b.
Qed.

Lemma filter_complement_element_type_witness :
  let mask := NdArray [2]%nat (BoolBuf [true; false]) in
  let r := NdArray [2]%nat (Int64Buf [254; 255]) in
  returns (filter_complement mask "uint8") r
  ∧ dtype_of (data r) = int64
  ∧ flat r 0 = Some (SInt 254).
Proof.
  intros mask r.
  assert (Hr : returns (filter_complement mask "uint8") r) by reflexivity.
  destruct (filter_complement_element_type mask "uint8" r Hr) as [Hd Hk].
  split; [exact Hr |]. split; [exact Hd |].
  assert (Ht : "uint8" ≠ "float") by discriminate.
  exact (Hk Ht 0%nat true eq_refl).
Defined.

(** X5: on the [uint8] and the float encoding of a boolean array the
    complement with the matching selector is the logical negation: it
    returns the same encoding of the negated array. *)
Theorem filter_complement_negates_masks (sh : list nat) (l : list bool) :
  l ≠ [] →
  returns (filter_complement (encode "uint8" sh l) "uint8") (encode "uint8" sh (negb <$> l))
  ∧ returns (filter_complement (encode "float" sh l) "float") (encode "float" sh (negb <$> l)).
Proof.
  intros Hne. split.
  - replace (encode "uint8" sh (negb <$> l)) with (int_minus 255 (encode "uint8" sh l)).
    + apply filter_complement_uint8. rewrite size_of_encode. by destruct l.
    + unfold encode, int_minus. simpl. do 2 f_equal.
      change (map ?f ?l) with (f <$> l). rewrite <- !list_fmap_compose.
      apply list_fmap_ext. by intros _ [] _.
  - replace (encode "float" sh (negb <$> l)) with (float_minus 1 (encode "float" sh l)).
    + apply filter_complement_float. rewrite size_of_encode. by destruct l.
    + unfold encode, float_minus. simpl. do 2 f_equal.
      change (map ?f ?l) with (f <$> l). rewrite <- !list_fmap_compose.
      apply list_fmap_ext. by intros _ [] _.
Qed.

Lemma filter_complement_negates_masks_witness :
  returns (filter_complement (NdArray [3]%nat (UInt8Buf [255; 0; 255])) "uint8")
    (NdArray [3]%nat (UInt8Buf [0; 255; 0]))
  ∧ returns (filter_complement (NdArray [3]%nat (Float64Buf [1; 0; 1]%float)) "float")
      (NdArray [3]%nat (Float64Buf [0; 1; 0]%float)).
Proof.
  apply (filter_complement_negates_masks [3]%nat [true; false; true]). discriminate.
Defined.

(** *** The channels of the grayscale filter *)

(** X6: the grayscale filter needs a last axis of at least three
    entries.  An array without axes raises IndexError and a last axis
    of one or two entries raises ValueError, in both cases before
    anything is printed; an array the filter returns has the shape of
    the image without its last axis and the element type [float64] for
    "float" and [uint8] for every other selector. *)
Theorem filter_rgb_to_grayscale_channels (np_img : ndarray) (output_type : string) :
  (shape np_img = [] →
   filter_rgb_to_grayscale np_img output_type
   = raise (IndexError "too many indices for array"))
  ∧ (∀ c, last (shape np_img) = Some c → (c < 3)%nat →
     filter_rgb_to_grayscale np_img output_type = raise (ValueError "shapes not aligned"))
  ∧ (∀ r, returns (filter_rgb_to_grayscale np_img output_type) r →
     ∃ c, last (shape np_img) = Some c ∧ (3 ≤ c)%nat
          ∧ shape r = removelast (shape np_img)
          ∧ dtype_of (data r) = if String.eqb output_type "float" then float64 else uint8).
Proof.
  unfold filter_rgb_to_grayscale, dot_rgb. split; [| split].
  - by intros ->.
  - intros c -> Hc. by rewrite (proj2 (Nat.ltb_lt c 3) Hc).
  - intros r Hr. destruct (last (shape np_img)) as [c |]; [| discriminate Hr].
    destruct (Nat.ltb_spec c 3); [discriminate Hr |].
    exists c. split; [done |]. split; [done |].
    apply returns_bind in Hr as (g & Hg & Hr). apply returns_lift in Hg. injection Hg as <-.
    cbv zeta in Hr. apply returns_report in Hr as [_ ->].
    by destruct (String.eqb output_type "float").
Qed.

Lemma filter_rgb_to_grayscale_channels_witness :
  filter_rgb_to_grayscale (NdArray [2; 2]%nat (UInt8Buf [1; 2; 3; 4])) "uint8"
  = raise (ValueError "shapes not aligned")
  ∧ ∃ r, returns (filter_rgb_to_grayscale (NdArray [2; 3]%nat (UInt8Buf [10; 20; 30; 0; 0; 255]))
                    "uint8") r
         ∧ shape r = [2]%nat.
Proof.
  split.
  - apply (proj1 (proj2 (filter_rgb_to_grayscale_channels
                           (NdArray [2; 2]%nat (UInt8Buf [1; 2; 3; 4])) "uint8")) 2%nat);
      [reflexivity | lia].
  - eexists. split; [unfold returns; vm_compute; reflexivity |]. reflexivity.
Defined.

Lemma chunks_rgba (pxs : list (Z * Z * Z * Z)) (fuel : nat) :
  (length pxs ≤ fuel)%nat →
  (take 3 <$> chunks 4 (values (UInt8Buf (pxs ≫= λ '(r, g, b, a), [r; g; b; a]))) fuel)
  = (λ '(r, g, b, _), [SInt r; SInt g; SInt b]) <$> pxs.
Proof.
  revert fuel. induction pxs as [| [[[r g] b] a] pxs IH]; intros fuel Hfuel.
  - by destruct fuel.
  - destruct fuel as [| fuel]; [simpl in Hfuel; lia |].
    rewrite bind_cons, !fmap_cons. simpl in *. f_equal. apply IH. lia.
Qed.

Lemma length_rgba (pxs : list (Z * Z * Z * Z)) :
  length (pxs ≫= λ '(r, g, b, a), [r; g; b; a]) = (4 * length pxs)%nat.
Proof.
  induction pxs as [| [[[r g] b] a] pxs IH]; [reflexivity |].
  rewrite bind_cons, length_app, IH. simpl. lia.
Qed.

(** X7: the grayscale filter ignores a fourth channel: on an RGBA image
    its outcome, for every selector, is its outcome on the RGB image
    with the same red, green and blue samples. *)
Theorem filter_rgb_to_grayscale_ignores_alpha (h w : nat) (pxs : list (Z * Z * Z * Z))
    (output_type : string) :
  filter_rgb_to_grayscale (rgba_image h w pxs) output_type
  = filter_rgb_to_grayscale (rgb_image h w (drop_alpha <$> pxs)) output_type.
Proof.
  unfold filter_rgb_to_grayscale. rewrite dot_rgb_image.
  replace (dot_rgb (rgba_image h w pxs) (0.2125, 0.7154, 0.0721)%float)
    with (inr (NdArray [h; w] (Float64Buf (luminance <$> (drop_alpha <$> pxs))))
          : exn + ndarray); [reflexivity |].
  unfold dot_rgb, rgba_image. simpl last. simpl removelast. cbv iota beta.
  simpl (4 <? 3)%nat. cbv iota. do 3 f_equal.
  unfold size_of. simpl data.
  change (map ?f ?l) with (f <$> l).
  rewrite (list_fmap_compose (take 3) (dot3 (0.2125, 0.7154, 0.0721)%float)).
  rewrite chunks_rgba.
  - rewrite <- !list_fmap_compose. apply list_fmap_ext. by intros _ [[[r g] b] a] _.
  - simpl. rewrite length_map, length_rgba. lia.
Qed.

(** *** Grey pixels *)

(** X9: a grey pixel keeps its level: on a uniform image of pixels
    [(v, v, v)], [v] a [uint8] sample, the grayscale filter with
    "uint8" returns the uniform image of level [v].  The three weights
    add up to 1 only up to rounding, and the sum is cut, not rounded;
    still no level is lost. *)
Theorem filter_rgb_to_grayscale_grey (h w : nat) (n : nat) (v : Z) :
  n ≠ 0%nat → is_uint8 v →
  returns (filter_rgb_to_grayscale (rgb_image h w (replicate n (v, v, v))) "uint8")
    (NdArray [h; w] (UInt8Buf (replicate n v))).
Proof.
  intros Hn Hv.
  pose proof (filter_rgb_to_grayscale_rgb_image h w (replicate n (v, v, v)) "uint8") as Hr.
  simpl negb in Hr. cbv iota in Hr. rewrite fmap_replicate in Hr.
  replace (wrap_uint8 (F2Z (luminance (v, v, v)))) with v in Hr.
  - apply Hr. by destruct n.
  - assert (Hall : forallb (λ v, wrap_uint8 (F2Z (luminance (v, v, v))) =? v) (seqZ 0 256)
                   = true) by (vm_compute; reflexivity).
    rewrite forallb_forall in Hall. symmetry. apply Z.eqb_eq, Hall.
    apply list_elem_of_In, elem_of_seqZ. unfold is_uint8 in Hv. lia.
Qed.

Lemma filter_rgb_to_grayscale_grey_witness :
  returns (filter_rgb_to_grayscale (rgb_image 1 2 (replicate 2 (43, 43, 43))) "uint8")
    (NdArray [1; 2]%nat (UInt8Buf (replicate 2 43))).
Proof.
  apply (filter_rgb_to_grayscale_grey 1 2 2 43); [discriminate | unfold is_uint8; lia].
Defined.

(** *** Selectors that only tell "float" from the rest *)

(** X10: the grayscale, complement, histogram-equalization and
    adaptive-equalization filters compare the selector with "float"
    only: every other selector, "bool" included, gives exactly the
    outcome of "uint8".  For the three of them that end with
    [astype("uint8")] the array returned then holds [uint8] elements,
    so "bool" never gives a boolean array. *)
Theorem two_way_selectors_read_bool_as_uint8 `{SkImage} (f : transform) (np_img : ndarray)
    (output_type : string) :
  is_two_way f = true → output_type ≠ "float" →
  run_transform f np_img output_type = run_transform f np_img "uint8"
  ∧ (casts_to_uint8 f = true →
     ∀ r, returns (run_transform f np_img output_type) r → dtype_of (data r) = uint8).
Proof.
  intros Hf Ht. apply String.eqb_neq in Ht.
  destruct f; try discriminate; simpl;
    unfold filter_rgb_to_grayscale, filter_complement, filter_histogram_equalization,
      filter_adaptive_equalization; rewrite Ht; simpl; (split; [reflexivity |]);
    try discriminate; intros _ r Hr; open_calls Hr Hne; reflexivity.
Qed.

Lemma two_way_selectors_read_bool_as_uint8_witness :
  let np_img := rgb_image 1 1 [(10, 20, 30)] in
  run_transform (H := example_sk) Grayscale np_img "bool"
  = run_transform (H := example_sk) Grayscale np_img "uint8"
  ∧ ∀ r, returns (run_transform (H := example_sk) Grayscale np_img "bool") r →
         dtype_of (data r) = uint8.
Proof.
  intros np_img.
  assert (Ht : "bool" ≠ "float") by discriminate.
  destruct (two_way_selectors_read_bool_as_uint8 (H := example_sk) Grayscale np_img "bool"
              eq_refl Ht) as [Heq Hu8].
  split; [exact Heq | exact (Hu8 eq_refl)].
Defined.

(** *** A negative neighbourhood *)

(** X11: the entropy, subtract-mean and modal filters build their
    neighbourhood with [np.ones((n, n))] before anything else, so with
    a negative [n] they raise the ValueError of [np.ones] for every
    image: the rank filter of the library is not called and nothing is
    printed. *)
Theorem negative_neighbourhood_raises `{SkImage} (np_img : ndarray) (neigh : Z)
    (threshold : scalar) (output_type : string) :
  neigh < 0 →
  filter_entropy np_img neigh threshold output_type
    = raise (ValueError "negative dimensions are not allowed")
  ∧ filter_subtract_mean np_img neigh output_type
    = raise (ValueError "negative dimensions are not allowed")
  ∧ filter_modal np_img neigh output_type
    = raise (ValueError "negative dimensions are not allowed").
Proof.
  intros Hneg.
  assert (Hones : np_ones neigh neigh = inl (ValueError "negative dimensions are not allowed")).
  { unfold np_ones. by rewrite (proj2 (Z.ltb_lt neigh 0) Hneg). }
  unfold filter_entropy, filter_subtract_mean, filter_modal. rewrite Hones.
  repeat split.
Qed.

Lemma negative_neighbourhood_raises_witness :
  filter_modal (H := Sk.reference) (NdArray [1; 1]%nat (UInt8Buf [7])) (-1) "uint8"
  = raise (ValueError "negative dimensions are not allowed").
Proof.
  assert (Hneg : -1 < 0) by lia.
  exact (proj2 (proj2 (negative_neighbourhood_raises (H := Sk.reference)
                         (NdArray [1; 1]%nat (UInt8Buf [7])) (-1) (SInt 0) "uint8" Hneg))).
Defined.

(** *** Remove-small-objects reads its input as a mask *)

(** [astype(bool)] undoes each of the three encodings. *)
Lemma to_mask_encode (t : string) (sh : list nat) (l : list bool) :
  to_mask (encode t sh l) = Mask sh l.
Proof.
  unfold encode, to_mask.
  destruct (String.eqb t "bool"), (String.eqb t "float"); simpl; f_equal;
    induction l as [| [] l IH]; simpl; f_equal; auto.
Qed.

(** X12: [filter_remove_small_objects] starts with [astype(bool)], so
    it gives one outcome on the three encodings of a boolean array:
    booleans, 1.0 and 0.0, or 255 and 0. *)
Theorem filter_remove_small_objects_reads_truth `{SkImage} (sh : list nat) (l : list bool)
    (t1 t2 : string) (min_size : Z) (output_type : string) :
  filter_remove_small_objects (encode t1 sh l) min_size output_type
  = filter_remove_small_objects (encode t2 sh l) min_size output_type.
Proof.
  unfold filter_remove_small_objects. cbv zeta. by rewrite !to_mask_encode.
Qed.

(** X13: when one of the eight mask filters is followed by
    [filter_remove_small_objects], the selector given to the first
    filter does not matter: a result of the pipeline for one selector is
    its result for every selector. *)
Theorem mask_then_remove_small_objects `{SkImage} (f : transform) (np_img : ndarray)
    (t1 t2 : string) (min_size : Z) (output_type : string) (r : ndarray) :
  is_mask_transform f = true →
  returns (then_remove_small_objects f np_img t1 min_size output_type) r →
  returns (then_remove_small_objects f np_img t2 min_size output_type) r.
Proof.
  intros Hf Hr. unfold then_remove_small_objects in *.
  apply returns_bind in Hr as (m1 & Hm1 & Hr).
  destruct (run_transform_encodes f np_img Hf t1 m1 Hm1) as (sh & l & _ & Hall).
  rewrite (returns_inj _ _ _ Hm1 (Hall t1)) in Hr.
  eapply bind_returns; [exact (Hall t2) |].
  unfold filter_remove_small_objects in *. cbv zeta in *.
  by rewrite to_mask_encode in *.
Qed.

Lemma mask_then_remove_small_objects_witness :
  let np_img := NdArray [1; 3]%nat (UInt8Buf [200; 210; 3]) in
  returns (then_remove_small_objects (H := example_sk) (Threshold GlobalOtsu) np_img
             "float" 2 "bool") (NdArray [1; 3]%nat (BoolBuf [true; true; false])).
Proof.
  intros np_img.
  apply (mask_then_remove_small_objects (H := example_sk) (Threshold GlobalOtsu) np_img
           "uint8" "float" 2 "bool"); [reflexivity | vm_compute; reflexivity].
Defined.

(** *** Histogram equalization with another number of bins *)

Lemma uint8_over_255 (v : Z) : is_uint8 v → unit_interval (Z2F v / Z2F 255).
Proof.
  intros Hv.
  assert (Hall : forallb (λ v, PrimFloat.leb 0 (Z2F v / Z2F 255)
                               && PrimFloat.leb (Z2F v / Z2F 255) 1) (seqZ 0 256) = true)
    by (vm_compute; reflexivity).
  rewrite forallb_forall in Hall.
  assert (Hin : In v (seqZ 0 256)).
  { apply list_elem_of_In, elem_of_seqZ. unfold is_uint8 in Hv. lia. }
  apply Hall in Hin. by apply andb_true_iff in Hin.
Qed.

(** X14: with a number of bins other than 256,
    [filter_histogram_equalization] hands the library not a [uint8]
    image but the [float64] image of its samples divided by 255, each
    between 0 and 1; its outcome is the one it has on that float image
    (which it leaves as it is). *)
Theorem filter_histogram_equalization_rescales `{SkImage} (sh : list nat) (l : list Z)
    (nbins : Z) (output_type : string) :
  nbins ≠ 256 → Forall is_uint8 l →
  ∃ xs, div_int (NdArray sh (UInt8Buf l)) 255 = NdArray sh (Float64Buf xs)
        ∧ length xs = length l
        ∧ Forall unit_interval xs
        ∧ filter_histogram_equalization (NdArray sh (UInt8Buf l)) nbins output_type
          = filter_histogram_equalization (NdArray sh (Float64Buf xs)) nbins output_type.
Proof.
  intros Hn Hl. apply Z.eqb_neq in Hn.
  exists ((λ v, (Z2F v / Z2F 255)%float) <$> l).
  split; [| split; [| split]].
  - unfold div_int. simpl. by rewrite map_map.
  - by rewrite length_fmap.
  - apply Forall_fmap. eapply Forall_impl; [exact Hl |]. apply uint8_over_255.
  - unfold filter_histogram_equalization. simpl. rewrite Hn. simpl.
    unfold div_int. simpl. by rewrite map_map.
Qed.

Lemma filter_histogram_equalization_rescales_witness :
  ∃ xs, div_int (NdArray [1; 2]%nat (UInt8Buf [0; 255])) 255
          = NdArray [1; 2]%nat (Float64Buf xs)
        ∧ length xs = 2%nat
        ∧ Forall unit_interval xs
        ∧ filter_histogram_equalization (H := example_sk)
            (NdArray [1; 2]%nat (UInt8Buf [0; 255])) 64 "uint8"
          = filter_histogram_equalization (H := example_sk)
              (NdArray [1; 2]%nat (Float64Buf xs)) 64 "uint8".
Proof.
  assert (Hn : 64 ≠ 256) by lia.
  assert (Hl : Forall is_uint8 [0; 255]) by (repeat constructor; unfold is_uint8; lia).
  exact (filter_histogram_equalization_rescales (H := example_sk) [1; 2]%nat [0; 255] 64
           "uint8" Hn Hl).
Defined.
